(** * Hedge-fill / limit-order-book matching: model and verified properties

    A shallow embedding of [matching_engine.py], [preprocess_lob.py],
    [preprocess_hedge.py] and of the tick table of [main_pipeline.py].

    Modelling conventions.
    - A pandas timestamp (datetime64[ns]) is its number of nanoseconds, a [Z];
      [NaT] is [None] where a column can hold it (the time of a hedge event,
      the time column of a raw frame).  The frame that the engine searches
      has a time in every row.
    - A numeric cell is an [option Q]: [None] is NaN / a missing value.  The
      arithmetic of the model is exact: the rounding of binary64 and the
      wrap-around of int64 are not modelled, and the statements that depend
      on the result of an addition, a subtraction or a division say where
      that result is exact.
    - The time threshold is the value of
      [pd.Timedelta(seconds=t_threshold_seconds)], in nanoseconds.
    - A DataFrame is the list of its rows together with its column labels;
      after [reset_index(drop=True)] the index label of a row is its position.
    - The labels that the engine reads without a guard ([CLORDID], [SIDE],
      [EXEC_PRICE], [hedge_time]) are fields of the rows; the labels it guards
      with ['LABEL' in ...] ([EXECTYPE], [CUMQTY], [lob_time], the level
      columns) are looked up in the column list of the frame.
    - [print] is modelled by appending a message to the output of the call.
    - An exception that leaves a function is modelled by a predicate of its
      own ([find_closest_lob_indexes_raises], [match_hedges_to_lob_raises]):
      the function of the model gives what a call returns and prints when it
      returns. *)

From Stdlib Require Import ZArith QArith Qabs List Bool Lia String.
From Stdlib Require Import Sorting.Sorted Sorting.Permutation.
From Stdlib Require Import DecimalString DecimalNat.
Import ListNotations.

Close Scope Q_scope.
Local Open Scope string_scope.
Local Open Scope list_scope.

(* ------------------------------------------------------------------ *)
(** ** Data model *)

(** One row of the hedge frame ([df_h_cleaned_sorted.iloc[irow]]). *)
Record HedgeEvent : Type := mkHedgeEvent {
  CLORDID    : string;
  SIDE       : option Z;
  EXECTYPE   : option Z;
  CUMQTY     : option Q;
  EXEC_PRICE : option Q;
  hedge_time : option Z
}.

(** The hedge frame: its column labels and its rows.  The labels of a
    row are the columns of its frame, so ['LABEL' in row] is a test on
    [hedge_columns]. *)
Record HedgeFrame : Type := mkHedgeFrame {
  hedge_columns : list string;
  hedge_rows    : list HedgeEvent
}.

Definition in_hedge_columns (c : string) (df : HedgeFrame) : bool :=
  existsb (String.eqb c) (hedge_columns df).

(** One row of the LOB frame.  [lob_cell] reads a numeric column by label. *)
Record LobRow : Type := mkLobRow {
  lob_time : Z;
  lob_ric  : string;
  lob_cell : string -> option Q
}.

Record LobFrame : Type := mkLobFrame {
  lob_columns : list string;
  lob_rows    : list LobRow
}.

Definition in_columns (c : string) (df : LobFrame) : bool :=
  existsb (String.eqb c) (lob_columns df).

(** [df.empty] for the LOB frame: it has no row or no column. *)
Definition lob_empty (df : LobFrame) : bool :=
  match lob_rows df with
  | [] => true
  | _ :: _ => match lob_columns df with [] => true | _ :: _ => false end
  end.

Definition hedge_empty (df : HedgeFrame) : bool :=
  match hedge_rows df with [] => true | _ => false end.

Inductive MatchType : Type := exact | fuzzy.

(** The dictionary appended to [matched_data_list]: the LOB row
    ([matched_lob_row.to_dict()]) and the keys added to it. *)
Record MatchRecord : Type := mkMatchRecord {
  matched_lob_row              : LobRow;
  original_lob_index           : nat;
  matched_hedge_clordid        : string;
  matched_hedge_exec_price     : Q;
  matched_lob_price_at_level   : option Q;   (* key set by the fuzzy pass only *)
  matched_hedge_side           : option Z;
  matched_hedge_exectype       : option Z;
  matched_hedge_time           : option Z;
  matched_hedge_this_fill_size : Q;
  matched_lob_level_interacted : Z;
  match_type                   : MatchType
}.

(** Lines written to standard output. *)
Inductive Msg : Type :=
| MsgThreshold (t : Z)
| MsgTickSize (tick : Q)
| MsgHedgeEmpty
| MsgLobEmpty
| MsgIrowOutOfBounds (irow : nat)
| MsgNaTHedgeTime (irow : nat)
| MsgLobEmptyForSearch
| MsgNoMatches
| MsgReportHeader
| MsgAttempted (n : nat)
| MsgTotalMatched (n : nat)
| MsgExactMatches (n : nat)
| MsgFuzzyMatches (tick : Q) (n : nat)
| MsgPercentage (p : Q)
| MsgNoFillEvents
| MsgReportEnd.

(* ------------------------------------------------------------------ *)
(** ** Window locator: [find_closest_lob_indexes] *)

Module Locator.

Local Open Scope Z_scope.

(** [pd.Timedelta(seconds=1)] in nanoseconds. *)
Definition one_second : Z := 1000000000.

Inductive SearchSide : Type := side_left | side_right.

(** The comparison of the binary search: [a[mid] < key] for
    [side='left'], [a[mid] <= key] for [side='right']. *)
Definition side_less (side : SearchSide) (mid_val key_val : Z) : bool :=
  match side with
  | side_left  => mid_val <? key_val
  | side_right => mid_val <=? key_val
  end.

(** The binary search behind [Series.searchsorted]: the loop
    [while min_idx < max_idx] with one iteration per unit of [fuel]. *)
Fixpoint binsearch (side : SearchSide) (arr : list Z) (key_val : Z)
         (fuel min_idx max_idx : nat) : nat :=
  match fuel with
  | O => min_idx
  | S fuel' =>
      if (min_idx <? max_idx)%nat then
        let mid_idx := (min_idx + (max_idx - min_idx) / 2)%nat in
        if side_less side (nth mid_idx arr 0) key_val
        then binsearch side arr key_val fuel' (S mid_idx) max_idx
        else binsearch side arr key_val fuel' min_idx mid_idx
      else min_idx
  end.

(** [Series.searchsorted(value, side=...)].  The interval shrinks at every
    iteration, so [length arr] iterations always reach
    [min_idx >= max_idx].  Timestamps are always comparable, so the
    [except] branch around the two calls is never taken. *)
Definition searchsorted (arr : list Z) (key_val : Z) (side : SearchSide) : nat :=
  binsearch side arr key_val (List.length arr) 0 (List.length arr).

(** The 64-bit integers that hold a timestamp or a timedelta, in
    nanoseconds. *)
Definition is_int64 (z : Z) : bool :=
  (-9223372036854775808 <=? z) && (z <=? 9223372036854775807).

(** The values of [pd.Timestamp] and of [pd.Timedelta]: every 64-bit
    integer but the least, which stands for [NaT]. *)
Definition is_timestamp (z : Z) : bool :=
  (-9223372036854775807 <=? z) && (z <=? 9223372036854775807).

Definition is_timedelta (z : Z) : bool := is_timestamp z.

(** Lines 20-21 raise when there is no such [Timedelta] or when a bound
    overflows the 64-bit integers ([OutOfBoundsDatetime]). *)
Definition bounds_raise (hedge_time t_threshold : Z) : bool :=
  negb (is_timedelta t_threshold)
  || negb (is_int64 (hedge_time - one_second))
  || negb (is_int64 (hedge_time + t_threshold)).

(** The call raises: it reaches lines 20-21 and they raise.  These
    lines come before the [try] of line 27, so the exception leaves the
    function. *)
Definition find_closest_lob_indexes_raises
           (df_h_sorted_for_lookup : HedgeFrame)
           (df_o_prepared_sorted : LobFrame)
           (hedge_irow : nat) (t_threshold : Z) : bool :=
  match nth_error (hedge_rows df_h_sorted_for_lookup) hedge_irow with
  | None => false
  | Some ev =>
      match hedge_time ev with
      | None => false
      | Some t => bounds_raise t t_threshold
      end
  end.

(** What the call returns and prints, when it returns. *)
Definition find_closest_lob_indexes
           (df_h_sorted_for_lookup : HedgeFrame)
           (df_o_prepared_sorted : LobFrame)
           (hedge_irow : nat) (t_threshold : Z) : (Z * Z) * list Msg :=
  match nth_error (hedge_rows df_h_sorted_for_lookup) hedge_irow with
  | None => ((-1, -1), [MsgIrowOutOfBounds hedge_irow])
  | Some ev =>
      match hedge_time ev with
      | None => ((-1, -1), [MsgNaTHedgeTime hedge_irow])
      | Some t =>
          let lower_bound := t - one_second in
          let upper_bound := t + t_threshold in
          if lob_empty df_o_prepared_sorted
             || negb (in_columns "lob_time" df_o_prepared_sorted)
          then ((-1, -1), [MsgLobEmptyForSearch])
          else
            let times := map lob_time (lob_rows df_o_prepared_sorted) in
            let start_idx := searchsorted times lower_bound side_left in
            let end_idx := searchsorted times upper_bound side_right in
            ((Z.of_nat start_idx, Z.of_nat end_idx), [])
      end
  end.

End Locator.

(* ------------------------------------------------------------------ *)
(** ** Matching engine: [match_hedges_to_lob] *)

Module Engine.

Import Locator.

(** The tolerance [1e-9] of the price comparisons. *)
Definition eps : Q := 1 # 1000000000.

Definition Qltb (x y : Q) : bool := negb (Qle_bool y x).

(** Subtraction of two numeric cells, NaN-propagating.  The difference
    is exact: it is the one that numpy gives when it is a binary64
    value within the range of int64. *)
Definition nan_sub (x y : option Q) : option Q :=
  match x, y with
  | Some a, Some b => Some (a - b)%Q
  | _, _ => None
  end.

(** [f'{n}'] *)
Definition str_of_nat (n : nat) : string :=
  NilEmpty.string_of_uint (Nat.to_uint n).

(** [f'L{lob_level_num}{suffix}'] *)
Definition level_col (lob_level_num : nat) (suffix : string) : string :=
  "L" ++ str_of_nat lob_level_num ++ suffix.

(** [range(1, 11)] *)
Definition level_range : list nat := seq 1 10.

(** State of the loop over [irow]. *)
Record EngineState : Type := mkEngineState {
  matched_data_list           : list MatchRecord;
  num_input_hedge_fill_events : nat;
  num_exact_price_matches     : nat;
  num_fuzzy_price_matches     : nat;
  stdout                      : list Msg
}.

(** ['EXECTYPE' in ev and ev['EXECTYPE'] not in [1, 2]]: the event is
    not a fill.  A NaN entry is in neither list position. *)
Definition not_a_fill (df_h : HedgeFrame) (ev : HedgeEvent) : bool :=
  in_hedge_columns "EXECTYPE" df_h
  && match EXECTYPE ev with
     | None => true
     | Some x => negb ((x =? 1)%Z || (x =? 2)%Z)
     end.

(** The branch on [SIDE]: price suffix, size suffix and sign of the
    reported level; [None] is the [else: continue]. *)
Definition side_columns (ev : HedgeEvent) : option (string * string * Z) :=
  match SIDE ev with
  | Some 1%Z => Some ("-AskPrice", "-AskSize", 1%Z)
  | Some 2%Z => Some ("-BidPrice", "-BidSize", (-1)%Z)
  | _ => None
  end.

(** [df_h.iloc[irow-1]] when [irow > 0]. *)
Definition previous_event (df_h : HedgeFrame) (irow : nat) : option HedgeEvent :=
  match irow with
  | O => None
  | S k => nth_error (hedge_rows df_h) k
  end.

(** [x > 0] on a float that may be NaN. *)
Definition nan_pos (x : option Q) : bool :=
  match x with Some q => Qltb 0 q | None => false end.

(** The value of [ord_size_this_fill] after lines 85-90. *)
Definition ord_size_this_fill (df_h : HedgeFrame) (irow : nat)
           (ev : HedgeEvent) : option Q :=
  let has_cumqty := in_hedge_columns "CUMQTY" df_h in
  let otherwise :=
    if has_cumqty && nan_pos (CUMQTY ev) then CUMQTY ev else Some 0%Q in
  match previous_event df_h irow with
  | Some prev =>
      if String.eqb (CLORDID ev) (CLORDID prev) && has_cumqty && has_cumqty
      then nan_sub (CUMQTY ev) (CUMQTY prev)
      else otherwise
  | None => otherwise
  end.

(** [df_o.iloc[start:end].iterrows()]: the rows of the slice with their
    index labels. *)
Definition iterrows_window (df_o : LobFrame) (lob_start_idx lob_end_idx : nat)
  : list (nat * LobRow) :=
  combine (seq lob_start_idx (lob_end_idx - lob_start_idx))
          (firstn (lob_end_idx - lob_start_idx) (skipn lob_start_idx (lob_rows df_o))).

(** The acceptance test of pass 1 on one row. *)
Definition exact_accept (lob_price_col lob_size_col : string)
           (exec_price ord_size : Q) (row : LobRow) : bool :=
  match lob_cell row lob_price_col with
  | Some p =>
      if Qltb (Qabs (p - exec_price)) eps then
        match lob_cell row lob_size_col with
        | Some s => Qle_bool ord_size s
        | None => false
        end
      else false
  | None => false
  end.

(** The acceptance test of pass 2 on one row. *)
Definition fuzzy_accept (tick_size : Q) (lob_price_col lob_size_col : string)
           (exec_price ord_size : Q) (row : LobRow) : bool :=
  match lob_cell row lob_price_col with
  | Some lob_level_price =>
      if Qle_bool (Qabs (lob_level_price - exec_price)) (tick_size + eps) then
        match lob_cell row lob_size_col with
        | Some s => Qle_bool ord_size s
        | None => false
        end
      else false
  | None => false
  end.

(** The inner [for ... in lob_window_df.iterrows()] with its [break]. *)
Fixpoint scan_rows (accept : LobRow -> bool) (window : list (nat * LobRow))
  : option (nat * LobRow) :=
  match window with
  | [] => None
  | (lob_original_idx, row) :: rest =>
      if accept row then Some (lob_original_idx, row)
      else scan_rows accept rest
  end.

(** The outer [for lob_level_num in range(1, 11)] with its [break];
    a level whose price or size column is not in the frame is passed
    over. *)
Fixpoint scan_levels (df_o : LobFrame) (lob_price_suffix lob_size_suffix : string)
         (accept : string -> string -> LobRow -> bool)
         (window : list (nat * LobRow)) (levels : list nat)
  : option (nat * nat * LobRow) :=
  match levels with
  | [] => None
  | lob_level_num :: more =>
      let lob_price_col := level_col lob_level_num lob_price_suffix in
      let lob_size_col := level_col lob_level_num lob_size_suffix in
      if negb (in_columns lob_price_col df_o) || negb (in_columns lob_size_col df_o)
      then scan_levels df_o lob_price_suffix lob_size_suffix accept window more
      else
        match scan_rows (accept lob_price_col lob_size_col) window with
        | Some (idx, row) => Some (lob_level_num, idx, row)
        | None => scan_levels df_o lob_price_suffix lob_size_suffix accept window more
        end
  end.

(** [match_details_dict] as filled in by either pass. *)
Definition match_details (df_h : HedgeFrame) (kind : MatchType) (ev : HedgeEvent)
           (lob_price_suffix : string) (matched_level_sign : Z)
           (exec_price ord_size : Q)
           (lob_level_num lob_original_idx : nat) (row : LobRow) : MatchRecord :=
  {| matched_lob_row := row;
     original_lob_index := lob_original_idx;
     matched_hedge_clordid := CLORDID ev;
     matched_hedge_exec_price := exec_price;
     matched_lob_price_at_level :=
       match kind with
       | exact => None
       | fuzzy => lob_cell row (level_col lob_level_num lob_price_suffix)
       end;
     matched_hedge_side := SIDE ev;
     matched_hedge_exectype :=
       (* [current_hedge_event.get('EXECTYPE', np.nan)] *)
       if in_hedge_columns "EXECTYPE" df_h then EXECTYPE ev else None;
     matched_hedge_time := hedge_time ev;
     matched_hedge_this_fill_size := ord_size;
     matched_lob_level_interacted := (matched_level_sign * Z.of_nat lob_level_num)%Z;
     match_type := kind |}.

(** Pass 1, then pass 2 only when pass 1 left [match_found_details]
    unset. *)
Definition find_match (df_h : HedgeFrame) (df_o : LobFrame) (tick_size : Q)
           (ev : HedgeEvent)
           (lob_price_suffix lob_size_suffix : string) (matched_level_sign : Z)
           (exec_price ord_size : Q) (window : list (nat * LobRow))
  : option MatchRecord :=
  match scan_levels df_o lob_price_suffix lob_size_suffix
          (fun pc sc => exact_accept pc sc exec_price ord_size)
          window level_range with
  | Some (n, idx, row) =>
      Some (match_details df_h exact ev lob_price_suffix matched_level_sign
                          exec_price ord_size n idx row)
  | None =>
      match scan_levels df_o lob_price_suffix lob_size_suffix
              (fun pc sc => fuzzy_accept tick_size pc sc exec_price ord_size)
              window level_range with
      | Some (n, idx, row) =>
          Some (match_details df_h fuzzy ev lob_price_suffix matched_level_sign
                              exec_price ord_size n idx row)
      | None => None
      end
  end.

(** Lines 171-176: append the record and bump the counter of its kind. *)
Definition record_match (st : EngineState) (found : option MatchRecord) : EngineState :=
  match found with
  | None => st
  | Some rec =>
      {| matched_data_list := matched_data_list st ++ [rec];
         num_input_hedge_fill_events := num_input_hedge_fill_events st;
         num_exact_price_matches :=
           match match_type rec with
           | exact => S (num_exact_price_matches st)
           | fuzzy => num_exact_price_matches st
           end;
         num_fuzzy_price_matches :=
           match match_type rec with
           | exact => num_fuzzy_price_matches st
           | fuzzy => S (num_fuzzy_price_matches st)
           end;
         stdout := stdout st |}
  end.

(** One iteration of [for irow in range(len(df_h_cleaned_sorted))]. *)
Definition loop_body (df_h : HedgeFrame) (df_o : LobFrame)
           (t_threshold : Z) (tick_size : Q)
           (st : EngineState) (irow : nat) : EngineState :=
  match nth_error (hedge_rows df_h) irow with
  | None => st
  | Some current_hedge_event =>
      if not_a_fill df_h current_hedge_event then st
      else
        let '(lob_start_idx, lob_end_idx, printed) :=
          find_closest_lob_indexes df_h df_o irow t_threshold in
        let st1 :=
          {| matched_data_list := matched_data_list st;
             num_input_hedge_fill_events := S (num_input_hedge_fill_events st);
             num_exact_price_matches := num_exact_price_matches st;
             num_fuzzy_price_matches := num_fuzzy_price_matches st;
             stdout := stdout st ++ printed |} in
        if (lob_start_idx =? -1)%Z || (lob_end_idx <=? lob_start_idx)%Z then st1
        else
          match side_columns current_hedge_event with
          | None => st1
          | Some (lob_price_suffix, lob_size_suffix, matched_level_sign) =>
              match ord_size_this_fill df_h irow current_hedge_event with
              | None => st1
              | Some ord_size =>
                  if Qle_bool ord_size 0 then st1
                  else
                    match EXEC_PRICE current_hedge_event with
                    | None => st1
                    | Some exec_price =>
                        record_match st1
                          (find_match df_h df_o tick_size current_hedge_event
                             lob_price_suffix lob_size_suffix matched_level_sign
                             exec_price ord_size
                             (iterrows_window df_o (Z.to_nat lob_start_idx)
                                              (Z.to_nat lob_end_idx)))
                    end
              end
          end
  end.

Definition initial_state (t_threshold : Z) (tick_size : Q) : EngineState :=
  {| matched_data_list := [];
     num_input_hedge_fill_events := 0;
     num_exact_price_matches := 0;
     num_fuzzy_price_matches := 0;
     stdout := [MsgThreshold t_threshold; MsgTickSize tick_size] |}.

Definition run_loop (df_h : HedgeFrame) (df_o : LobFrame)
           (t_threshold : Z) (tick_size : Q) : EngineState :=
  fold_left (loop_body df_h df_o t_threshold tick_size)
            (seq 0 (List.length (hedge_rows df_h)))
            (initial_state t_threshold tick_size).

(** [(num_matched / num_input) * 100] *)
Definition perc_fills_matched (num_matched num_input : nat) : Q :=
  (inject_Z (Z.of_nat num_matched) / inject_Z (Z.of_nat num_input) * 100)%Q.

(** Lines 186-197. *)
Definition report (tick_size : Q) (st : EngineState) : list Msg :=
  let num_matched_fill_events := List.length (matched_data_list st) in
  [MsgReportHeader;
   MsgAttempted (num_input_hedge_fill_events st);
   MsgTotalMatched num_matched_fill_events;
   MsgExactMatches (num_exact_price_matches st);
   MsgFuzzyMatches tick_size (num_fuzzy_price_matches st);
   if (0 <? num_input_hedge_fill_events st)%nat
   then MsgPercentage (perc_fills_matched num_matched_fill_events
                                          (num_input_hedge_fill_events st))
   else MsgNoFillEvents;
   MsgReportEnd].

(** The call raises: both frames have rows, and the locator raises on a
    row that reaches it.  Nothing in the loop catches the exception. *)
Definition match_hedges_to_lob_raises (df_h_cleaned_sorted : HedgeFrame)
           (df_o_enriched_prepared : LobFrame)
           (t_threshold : Z) (tick_size : Q) : bool :=
  negb (hedge_empty df_h_cleaned_sorted)
  && negb (lob_empty df_o_enriched_prepared)
  && existsb
       (fun irow =>
          match nth_error (hedge_rows df_h_cleaned_sorted) irow with
          | Some current_hedge_event =>
              negb (not_a_fill df_h_cleaned_sorted current_hedge_event)
              && find_closest_lob_indexes_raises
                   df_h_cleaned_sorted df_o_enriched_prepared irow t_threshold
          | None => false
          end)
       (seq 0 (List.length (hedge_rows df_h_cleaned_sorted))).

(** What the call returns and prints, when it returns: the frame of
    match records (the empty frame is the empty list) and the lines
    printed. *)
Definition match_hedges_to_lob (df_h_cleaned_sorted : HedgeFrame)
           (df_o_enriched_prepared : LobFrame)
           (t_threshold : Z) (tick_size : Q) : list MatchRecord * list Msg :=
  let banner := [MsgThreshold t_threshold; MsgTickSize tick_size] in
  if hedge_empty df_h_cleaned_sorted then ([], banner ++ [MsgHedgeEmpty])
  else if lob_empty df_o_enriched_prepared then ([], banner ++ [MsgLobEmpty])
  else
    let st := run_loop df_h_cleaned_sorted df_o_enriched_prepared
                       t_threshold tick_size in
    match matched_data_list st with
    | [] => ([], stdout st ++ [MsgNoMatches])
    | _ :: _ => (matched_data_list st, stdout st ++ report tick_size st)
    end.

End Engine.

(* ------------------------------------------------------------------ *)
(** ** LOB preparation: [filter_and_prepare_lob_data]

    The raw frame is modelled with its time column parsed: the cell of a
    row is a timestamp or [NaT].  The conversions of lines 74-79 are the
    identity on such a column. *)

Module Prepare.

Local Open Scope Z_scope.

(** One row of the raw LOB frame: the cell of its time column
    (['Date-Time'], ['lob_time'] once renamed), its RIC and its numeric
    cells. *)
Record RawLobRow : Type := mkRawLobRow {
  date_time    : option Z;
  raw_lob_ric  : string;
  raw_lob_cell : string -> option Q
}.

Record RawLobFrame : Type := mkRawLobFrame {
  raw_lob_columns : list string;
  raw_lob_rows    : list RawLobRow
}.

Definition in_raw_lob_columns (c : string) (df : RawLobFrame) : bool :=
  existsb (String.eqb c) (raw_lob_columns df).

(** [df_o.empty] *)
Definition raw_lob_empty (df : RawLobFrame) : bool :=
  match raw_lob_rows df with
  | [] => true
  | _ :: _ => match raw_lob_columns df with [] => true | _ :: _ => false end
  end.

(** Lines printed by the preparation. *)
Inductive PrepareMsg : Type :=
| MsgLobFrameEmpty
| MsgDateTimeNotFound
| MsgNoLobDataForRic (specific_ric : string)
| MsgRicColumnNotFound (specific_ric : string)
| MsgStillNotSorted.

(** Order of two cells of the time column under [sort_values]: [NaT]
    goes last. *)
Definition time_leb (a b : option Z) : bool :=
  match a, b with
  | Some x, Some y => x <=? y
  | _, None => true
  | None, Some _ => false
  end.

(** Equality of two cells of the time column for [drop_duplicates]:
    [NaT] is equal to [NaT]. *)
Definition time_eqb (a b : option Z) : bool :=
  match a, b with
  | Some x, Some y => x =? y
  | None, None => true
  | _, _ => false
  end.

(** Insertion of a row in front of the first row that is not earlier. *)
Fixpoint insert_by_time (r : RawLobRow) (rows : list RawLobRow) : list RawLobRow :=
  match rows with
  | [] => [r]
  | x :: rest =>
      if time_leb (date_time r) (date_time x) then r :: x :: rest
      else x :: insert_by_time r rest
  end.

(** [df.sort_values(by=['lob_time'])].  pandas leaves the relative order
    of rows with equal keys to the sorting kind; the model keeps it. *)
Fixpoint sort_values (rows : list RawLobRow) : list RawLobRow :=
  match rows with
  | [] => []
  | r :: rest => insert_by_time r (sort_values rest)
  end.

(** [Series.is_monotonic_increasing] on a time column: every value is at
    least the one before it, and none is [NaT]. *)
Fixpoint is_monotonic_increasing (times : list (option Z)) : bool :=
  match times with
  | [] => true
  | None :: _ => false
  | Some t :: rest =>
      match rest with
      | [] => true
      | None :: _ => false
      | Some u :: _ => (t <=? u) && is_monotonic_increasing rest
      end
  end.

(** [df.drop_duplicates(subset=['lob_time'], keep='first')], with the
    cells already met in [seen]. *)
Fixpoint drop_duplicates_from (seen : list (option Z)) (rows : list RawLobRow)
  : list RawLobRow :=
  match rows with
  | [] => []
  | r :: rest =>
      if existsb (time_eqb (date_time r)) seen
      then drop_duplicates_from seen rest
      else r :: drop_duplicates_from (date_time r :: seen) rest
  end.

Definition drop_duplicates (rows : list RawLobRow) : list RawLobRow :=
  drop_duplicates_from [] rows.

(** [df_o[df_o['Alias Underlying RIC'] == specific_ric]] *)
Definition filter_ric (specific_ric : string) (rows : list RawLobRow)
  : list RawLobRow :=
  filter (fun r => String.eqb (raw_lob_ric r) specific_ric) rows.

(** Truth value of a Python string. *)
Definition truthy (s : string) : bool :=
  match s with EmptyString => false | _ => true end.

(** [df_o.rename(columns={'Date-Time': 'lob_time'})] *)
Definition rename_time_column (cols : list string) : list string :=
  map (fun c => if String.eqb c "Date-Time" then "lob_time" else c) cols.

(** Lines 81-96: sort; while the column is not monotonic, drop the
    duplicated timestamps, sort again, and warn. *)
Definition sort_and_check (rows : list RawLobRow)
  : list RawLobRow * list PrepareMsg :=
  let sorted := sort_values rows in
  if negb (is_monotonic_increasing (map date_time sorted)) then
    let deduped := drop_duplicates sorted in
    if negb (is_monotonic_increasing (map date_time deduped)) then
      let resorted := sort_values deduped in
      if negb (is_monotonic_increasing (map date_time resorted))
      then (resorted, [MsgStillNotSorted])
      else (resorted, [])
    else (deduped, [])
  else (sorted, []).

Definition filter_and_prepare_lob_data (df_o : RawLobFrame) (specific_ric : string)
  : RawLobFrame * list PrepareMsg :=
  if raw_lob_empty df_o then (df_o, [MsgLobFrameEmpty])
  else if negb (in_raw_lob_columns "Date-Time" df_o)
  then (df_o, [MsgDateTimeNotFound])
  else
    let by_ric := truthy specific_ric
                  && in_raw_lob_columns "Alias Underlying RIC" df_o in
    let rows := if by_ric then filter_ric specific_ric (raw_lob_rows df_o)
                else raw_lob_rows df_o in
    let warning := if negb by_ric && truthy specific_ric
                   then [MsgRicColumnNotFound specific_ric] else [] in
    match rows with
    | [] => ({| raw_lob_columns := raw_lob_columns df_o; raw_lob_rows := [] |},
             [MsgNoLobDataForRic specific_ric])
    | _ :: _ =>
        let '(prepared, printed) := sort_and_check rows in
        ({| raw_lob_columns := rename_time_column (raw_lob_columns df_o);
            raw_lob_rows := prepared |},
         warning ++ printed)
    end.

(** The rows that survive the RIC filter: what the sorting step receives. *)
Definition selected_rows (df_o : RawLobFrame) (specific_ric : string)
  : list RawLobRow :=
  if truthy specific_ric && in_raw_lob_columns "Alias Underlying RIC" df_o
  then filter_ric specific_ric (raw_lob_rows df_o)
  else raw_lob_rows df_o.

End Prepare.

(* ------------------------------------------------------------------ *)
(** ** Vocabulary of the statements *)

Import Locator Engine Prepare.

(** The window of a fill at [event_time] is representable: the
    threshold is a timedelta and the two bounds [event_time - 1s] and
    [event_time + t_threshold] are timestamps. *)
Definition window_in_range (event_time t_threshold : Z) : bool :=
  is_timedelta t_threshold
  && is_timestamp (event_time - one_second)
  && is_timestamp (event_time + t_threshold).

(** The window of the row [irow] is representable, when the row has a
    time. *)
Definition row_window_in_range (df_h : HedgeFrame) (irow : nat)
           (t_threshold : Z) : bool :=
  match nth_error (hedge_rows df_h) irow with
  | Some ev =>
      match hedge_time ev with
      | Some t => window_in_range t t_threshold
      | None => true
      end
  | None => true
  end.

(** A row of a raw frame as the engine reads it, when its time is
    defined. *)
Definition timed_row (r : RawLobRow) : option LobRow :=
  match date_time r with
  | Some t => Some {| lob_time := t; lob_ric := raw_lob_ric r;
                      lob_cell := raw_lob_cell r |}
  | None => None
  end.

Fixpoint timed_rows (rows : list RawLobRow) : option (list LobRow) :=
  match rows with
  | [] => Some []
  | r :: rest =>
      match timed_row r, timed_rows rest with
      | Some x, Some l => Some (x :: l)
      | _, _ => None
      end
  end.

(** A frame of the preparation as the engine reads it, when no time of
    its column is [NaT]. *)
Definition lob_frame_of (df : RawLobFrame) : option LobFrame :=
  match timed_rows (raw_lob_rows df) with
  | Some rows => Some {| lob_columns := raw_lob_columns df; lob_rows := rows |}
  | None => None
  end.

(** No time of the rows is [NaT]. *)
Definition times_defined (rows : list RawLobRow) : bool :=
  forallb (fun r => match date_time r with Some _ => true | None => false end) rows.

(** The rows are in the order of [sort_values]: by time, [NaT] last. *)
Definition time_sorted (rows : list RawLobRow) : Prop :=
  Sorted (fun a b => time_leb (date_time a) (date_time b) = true) rows.

(** [q] is a value of binary64: [m * 2^e] with [|m| < 2^53] and
    [-1074 <= e <= 971]. *)
Definition binary64_value (q : Q) : Prop :=
  exists m e : Z,
    (Z.abs m < 2 ^ 53)%Z /\ (-1074 <= e <= 971)%Z /\
    (q == inject_Z m * (2 # 1) ^ e)%Q.

(** [q] is a result that the arithmetic of the cells gives exactly,
    whether the cells are binary64 numbers or 64-bit integers: a
    binary64 value within the range of int64, so that the operation
    neither rounds nor wraps around. *)
Definition exact_result (q : Q) : Prop :=
  binary64_value q /\
  (inject_Z (-9223372036854775808) <= q <= inject_Z 9223372036854775807)%Q.


(** The value of the frame at [row] and column [c]: missing when the
    frame has no such column or the cell is NaN. *)
Definition frame_cell (df_o : LobFrame) (row : LobRow) (c : string) : option Q :=
  if in_columns c df_o then lob_cell row c else None.

(** [row] is the [k]-th row of the window [[start_idx, end_idx)]. *)
Definition in_window (df_o : LobFrame) (start_idx end_idx k : nat)
           (row : LobRow) : Prop :=
  (start_idx + k < end_idx)%nat /\
  nth_error (lob_rows df_o) (start_idx + k) = Some row.

(** Size sufficiency at level [n]: the size is there and covers the fill. *)
Definition size_sufficient (df_o : LobFrame) (size_suffix : string)
           (fill_size : Q) (n : nat) (row : LobRow) : Prop :=
  exists s, frame_cell df_o row (level_col n size_suffix) = Some s /\
            (fill_size <= s)%Q.

(** The exact-match condition at level [n]: the level price is within
    [1e-9] of the execution price and the level size covers the fill. *)
Definition exact_condition (df_o : LobFrame) (price_suffix size_suffix : string)
           (exec_price fill_size : Q) (n : nat) (row : LobRow) : Prop :=
  (exists p, frame_cell df_o row (level_col n price_suffix) = Some p /\
             (Qabs (p - exec_price) < eps)%Q) /\
  size_sufficient df_o size_suffix fill_size n row.

(** The fuzzy-match condition at level [n]. *)
Definition fuzzy_condition (df_o : LobFrame) (tick_size : Q)
           (price_suffix size_suffix : string)
           (exec_price fill_size : Q) (n : nat) (row : LobRow) : Prop :=
  (exists p, frame_cell df_o row (level_col n price_suffix) = Some p /\
             (Qabs (p - exec_price) <= tick_size + eps)%Q) /\
  size_sufficient df_o size_suffix fill_size n row.

(** [(n, k)] is the first pair of the level-major, then time-major
    traversal of the window at which [cond] holds. *)
Definition first_in_traversal (df_o : LobFrame) (start_idx end_idx : nat)
           (cond : nat -> LobRow -> Prop) (n k : nat) (row : LobRow) : Prop :=
  (1 <= n <= 10)%nat /\
  in_window df_o start_idx end_idx k row /\
  cond n row /\
  (forall n' k' row', (1 <= n' < n)%nat ->
                      in_window df_o start_idx end_idx k' row' -> ~ cond n' row') /\
  (forall k' row', (k' < k)%nat ->
                   in_window df_o start_idx end_idx k' row' -> ~ cond n row').

(** A level takes part in a pass when both of its columns are in the
    frame. *)
Definition level_present (df_o : LobFrame) (psfx ssfx : string) (n : nat) : bool :=
  in_columns (level_col n psfx) df_o && in_columns (level_col n ssfx) df_o.

(** What the level loop decides at one level: the first accepted row, if
    the level takes part. *)
Definition level_hit (df_o : LobFrame) (psfx ssfx : string)
           (accept : string -> string -> LobRow -> bool)
           (window : list (nat * LobRow)) (n : nat) : option (nat * LobRow) :=
  if level_present df_o psfx ssfx n
  then scan_rows (accept (level_col n psfx) (level_col n ssfx)) window
  else None.

(** Number of records of one kind. *)
Definition count_kind (kind : MatchType) (l : list MatchRecord) : nat :=
  List.length (filter (fun r => match match_type r, kind with
                                | exact, exact | fuzzy, fuzzy => true
                                | _, _ => false
                                end) l).

(** The rows that pass the fill-type test. *)
Definition fill_events (df_h : HedgeFrame) : list HedgeEvent :=
  filter (fun ev => negb (not_a_fill df_h ev)) (hedge_rows df_h).

(** What one row adds to the attempts counter. *)
Definition attempt_of (df_h : HedgeFrame) (irow : nat) : nat :=
  match nth_error (hedge_rows df_h) irow with
  | Some ev => if not_a_fill df_h ev then 0 else 1
  | None => 0
  end.

(** The event at [irow] passes the pre-filters of the engine: it is a
    fill, its candidate window [[start_idx, end_idx)] is non-empty, its
    side selects a pair of column suffixes and a sign, its fill size is
    defined and positive, and its execution price is defined. *)
Definition passes_prefilters (df_h : HedgeFrame) (df_o : LobFrame)
           (t_threshold : Z) (irow : nat) (ev : HedgeEvent)
           (start_idx end_idx : nat) (price_suffix size_suffix : string)
           (sign : Z) (fill_size exec_price : Q) : Prop :=
  nth_error (hedge_rows df_h) irow = Some ev /\
  not_a_fill df_h ev = false /\
  fst (find_closest_lob_indexes df_h df_o irow t_threshold)
  = (Z.of_nat start_idx, Z.of_nat end_idx) /\
  (start_idx < end_idx)%nat /\
  side_columns ev = Some (price_suffix, size_suffix, sign) /\
  ord_size_this_fill df_h irow ev = Some fill_size /\
  (0 < fill_size)%Q /\
  EXEC_PRICE ev = Some exec_price.

(** A buy is matched against the ask columns and reported with a
    positive level, a sell against the bid columns with a negative one. *)
Definition side_appropriate (ev : HedgeEvent)
           (price_suffix size_suffix : string) (sign : Z) : Prop :=
  (SIDE ev = Some 1%Z /\ price_suffix = "-AskPrice" /\
   size_suffix = "-AskSize" /\ sign = 1%Z) \/
  (SIDE ev = Some 2%Z /\ price_suffix = "-BidPrice" /\
   size_suffix = "-BidSize" /\ sign = (-1)%Z).



(** The lines of the final report. *)
Definition is_report_line (m : Msg) : bool :=
  match m with
  | MsgReportHeader | MsgAttempted _ | MsgTotalMatched _ | MsgExactMatches _
  | MsgFuzzyMatches _ _ | MsgPercentage _ | MsgNoFillEvents | MsgReportEnd => true
  | _ => false
  end.

(** The report of a run with [attempted] attempts that returns [res]. *)
Definition report_lines (tick_size : Q) (attempted : nat) (res : list MatchRecord)
  : list Msg :=
  [MsgReportHeader;
   MsgAttempted attempted;
   MsgTotalMatched (List.length res);
   MsgExactMatches (count_kind exact res);
   MsgFuzzyMatches tick_size (count_kind fuzzy res);
   MsgPercentage (perc_fills_matched (List.length res) attempted);
   MsgReportEnd].

(** The records that the iteration for [irow] appends. *)
Definition event_records (df_h : HedgeFrame) (df_o : LobFrame)
           (t_threshold : Z) (tick_size : Q) (irow : nat) : list MatchRecord :=
  matched_data_list
    (loop_body df_h df_o t_threshold tick_size
               (initial_state t_threshold tick_size) irow).

(** The record points at a snapshot of the frame, and in a frame sorted
    by time that snapshot lies in the closed window around the time of
    the fill. *)
Definition snapshot_in_window (df_o : LobFrame) (t_threshold : Z)
           (rec : MatchRecord) : Prop :=
  nth_error (lob_rows df_o) (original_lob_index rec) = Some (matched_lob_row rec) /\
  (Sorted Z.le (map lob_time (lob_rows df_o)) ->
   exists t, matched_hedge_time rec = Some t /\
             (t - one_second <= lob_time (matched_lob_row rec) <= t + t_threshold)%Z).

(** The record carries the identifier, side, time, execution price and
    fill size of the row [irow], and the sign of its level follows the
    side. *)
Definition record_of_event (df_h : HedgeFrame) (irow : nat) (ev : HedgeEvent)
           (rec : MatchRecord) : Prop :=
  nth_error (hedge_rows df_h) irow = Some ev /\
  matched_hedge_clordid rec = CLORDID ev /\
  matched_hedge_side rec = SIDE ev /\
  matched_hedge_time rec = hedge_time ev /\
  EXEC_PRICE ev = Some (matched_hedge_exec_price rec) /\
  ord_size_this_fill df_h irow ev = Some (matched_hedge_this_fill_size rec) /\
  (0 < matched_hedge_this_fill_size rec)%Q /\
  ((SIDE ev = Some 1%Z /\ (0 < matched_lob_level_interacted rec)%Z) \/
   (SIDE ev = Some 2%Z /\ (matched_lob_level_interacted rec < 0)%Z)).

(** Some level and row of the window satisfy [cond]. *)
Definition has_candidate (df_o : LobFrame) (start_idx end_idx : nat)
           (cond : nat -> LobRow -> Prop) : Prop :=
  exists n k row, (1 <= n <= 10)%nat /\ in_window df_o start_idx end_idx k row /\
                  cond n row.

(* ------------------------------------------------------------------ *)
(** ** Sample frames *)

Module Sample.

Import Locator Engine Prepare.

(** A row given by its labelled cells. *)
Fixpoint cells (l : list (string * Q)) (c : string) : option Q :=
  match l with
  | [] => None
  | (k, v) :: rest => if String.eqb c k then Some v else cells rest c
  end.

Definition ms (n : Z) : Z := (n * 1000000)%Z.

Definition ask_row (t_ms : Z) (p1 s1 p2 s2 : Q) : LobRow :=
  {| lob_time := ms t_ms;
     lob_ric := "FFIH4";
     lob_cell := cells [("L1-AskPrice", p1); ("L1-AskSize", s1);
                        ("L2-AskPrice", p2); ("L2-AskSize", s2)] |}.

Definition ask_columns : list string :=
  ["lob_time"; "Alias Underlying RIC";
   "L1-AskPrice"; "L1-AskSize"; "L2-AskPrice"; "L2-AskSize"].

(** Snapshots at 9.0s, 9.5s, 10.2s, 11.0s, 12.0s and 12.5s. *)
Definition book : LobFrame :=
  {| lob_columns := ask_columns;
     lob_rows :=
       [ask_row  9000 (200#1) 1 (201#1) 1;
        ask_row  9500 (100#1) 3 (201#2) 4;
        ask_row 10200 (201#2) 10 (101#1) 8;
        ask_row 11000 (201#2) 2 (101#1) 8;
        ask_row 12000 (202#1) 1 (203#1) 1;
        ask_row 12500 (202#1) 1 (203#1) 1] |}.


Definition buy_fill (id : string) (cum : Q) (price : Q) (t_ms : Z) : HedgeEvent :=
  {| CLORDID := id; SIDE := Some 1%Z; EXECTYPE := Some 2%Z;
     CUMQTY := Some cum; EXEC_PRICE := Some price;
     hedge_time := Some (ms t_ms) |}.

(** A hedge frame with all the columns the engine reads. *)
Definition fills (rows : list HedgeEvent) : HedgeFrame :=
  {| hedge_columns := ["CLORDID"; "SIDE"; "EXECTYPE"; "CUMQTY"; "EXEC_PRICE";
                       "hedge_time"];
     hedge_rows := rows |}.

(** Threshold of two seconds, tick of one half. *)
Definition two_seconds : Z := (2 * one_second)%Z.
Definition half_tick : Q := 1 # 2.

(** A threshold of 9223372030 seconds, some 292 years: a timedelta, but
    ten seconds more are past the last timestamp. *)
Definition far_threshold : Z := (9223372030 * one_second)%Z.

(** A buy of 5 at 100.50, at 10s (scenario 1). *)
Definition exact_fill : HedgeEvent := buy_fill "A" 5 (201 # 2) 10000.

(** A buy of 5 at 100.80, at 10s: no level is at that price. *)
Definition fuzzy_fill : HedgeEvent := buy_fill "B" 5 (504 # 5) 10000.

(** A row with a negative cumulative quantity and no predecessor. *)
Definition negative_fill : HedgeEvent := buy_fill "C" (-3 # 1) (201 # 2) 10000.


(** An order acknowledgement: not a fill. *)
Definition acknowledgement : HedgeEvent :=
  {| CLORDID := "E"; SIDE := Some 1%Z; EXECTYPE := Some 0%Z;
     CUMQTY := Some 0%Q; EXEC_PRICE := None; hedge_time := None |}.

(** A fill without a timestamp. *)
Definition untimed_fill : HedgeEvent :=
  {| CLORDID := "F"; SIDE := Some 1%Z; EXECTYPE := Some 1%Z;
     CUMQTY := Some 5%Q; EXEC_PRICE := Some (201 # 2)%Q; hedge_time := None |}.

(** A fill whose side is neither buy nor sell. *)
Definition sideless_fill : HedgeEvent :=
  {| CLORDID := "G"; SIDE := Some 7%Z; EXECTYPE := Some 1%Z;
     CUMQTY := Some 5%Q; EXEC_PRICE := Some (201 # 2)%Q;
     hedge_time := Some (ms 10000) |}.


(** A fill without a timestamp followed by the fill of scenario 1. *)
Definition untimed_then_fill : HedgeFrame := fills [untimed_fill; exact_fill].

(** Fills that are attempted but skipped, then the fill of scenario 1. *)
Definition skipped_then_fill : HedgeFrame :=
  fills [untimed_fill; sideless_fill; negative_fill; exact_fill].

(** A row of a raw LOB frame, of the instrument [ric]. *)
Definition raw_ask_row (t_ms : Z) (ric : string) (p1 s1 p2 s2 : Q) : RawLobRow :=
  {| date_time := Some (ms t_ms);
     raw_lob_ric := ric;
     raw_lob_cell := cells [("L1-AskPrice", p1); ("L1-AskSize", s1);
                            ("L2-AskPrice", p2); ("L2-AskSize", s2)] |}.

Definition raw_columns_of_book : list string :=
  ["Date-Time"; "Alias Underlying RIC";
   "L1-AskPrice"; "L1-AskSize"; "L2-AskPrice"; "L2-AskSize"].

(** A raw LOB frame, out of order, with two snapshots at 9.5s and one
    snapshot of another instrument. *)
Definition raw_book : RawLobFrame :=
  {| raw_lob_columns := raw_columns_of_book;
     raw_lob_rows :=
       [raw_ask_row 11000 "FFIH4" (201#2) 2 (101#1) 8;
        raw_ask_row  9500 "FFIH4" (100#1) 3 (201#2) 4;
        raw_ask_row 10000 "ESH4"  (100#1) 9 (201#2) 9;
        raw_ask_row  9500 "FFIH4" (100#1) 6 (201#2) 4] |}.

(** The same frame with a snapshot whose time is [NaT]. *)
Definition raw_book_with_nat : RawLobFrame :=
  {| raw_lob_columns := raw_columns_of_book;
     raw_lob_rows :=
       {| date_time := None; raw_lob_ric := "FFIH4";
          raw_lob_cell := cells [("L1-AskPrice", (100#1)%Q); ("L1-AskSize", 1%Q)] |}
       :: raw_lob_rows raw_book |}.

(** What the preparation of [raw_book] gives for the instrument FFIH4,
    as the engine reads it. *)
Definition prepared_book : LobFrame :=
  {| lob_columns := ["lob_time"; "Alias Underlying RIC";
                     "L1-AskPrice"; "L1-AskSize"; "L2-AskPrice"; "L2-AskSize"];
     lob_rows :=
       [ask_row  9500 (100#1) 3 (201#2) 4;
        ask_row  9500 (100#1) 6 (201#2) 4;
        ask_row 11000 (201#2) 2 (101#1) 8] |}.

(** The records of scenarios 1 and 2. *)
Definition exact_record : MatchRecord :=
  match_details (fills [exact_fill]) exact exact_fill "-AskPrice" 1 (201 # 2) 5
                1 2 (ask_row 10200 (201#2) 10 (101#1) 8).

Definition fuzzy_record : MatchRecord :=
  match_details (fills [fuzzy_fill]) fuzzy fuzzy_fill "-AskPrice" 1 (504 # 5) 5
                1 2 (ask_row 10200 (201#2) 10 (101#1) 8).

(** The record of the fill of scenario 1 on the prepared raw book: no
    level has the size at the exact price, the second snapshot at 9.5s
    is within one tick. *)
Definition prepared_record : MatchRecord :=
  match_details (fills [exact_fill]) fuzzy exact_fill "-AskPrice" 1 (201 # 2) 5
                1 1 (ask_row 9500 (100#1) 6 (201#2) 4).

(** A two-sided frame with the sizes of levels 1, 2 and 4: level 3 is
    missing.  The second row has no ask size at level 2. *)
Definition depth_book : LobFrame :=
  {| lob_columns := ["lob_time"; "L1-AskSize"; "L1-BidSize";
                     "L2-AskSize"; "L2-BidSize"; "L4-AskSize"; "L4-BidSize"];
     lob_rows :=
       [{| lob_time := ms 9000; lob_ric := "FFIH4";
           lob_cell := cells [("L1-AskSize", 3%Q); ("L1-BidSize", 2%Q);
                              ("L2-AskSize", 4%Q); ("L2-BidSize", 5%Q);
                              ("L4-AskSize", 7%Q); ("L4-BidSize", 7%Q)] |};
        {| lob_time := ms 9500; lob_ric := "FFIH4";
           lob_cell := cells [("L1-AskSize", 1%Q); ("L1-BidSize", 6%Q);
                              ("L2-BidSize", 2%Q);
                              ("L4-AskSize", 7%Q); ("L4-BidSize", 7%Q)] |}] |}.

End Sample.

(* ------------------------------------------------------------------ *)
(** ** Tick size of an instrument: [get_tick_size_for_ric] *)

Module Pipeline.

(** The warning printed for an unknown prefix. *)
Inductive PipelineMsg : Type :=
| MsgTickNotDefined (ric_prefix : string).

(** [ric_code[:2]] *)
Definition ric_prefix_of (ric_code : string) : string := substring 0 2 ric_code.

Definition get_tick_size_for_ric (ric_code : string) : Q * list PipelineMsg :=
  let ric_prefix := ric_prefix_of ric_code in
  if String.eqb ric_prefix "FF" then ((1 # 2)%Q, [])
  else if String.eqb ric_prefix "ES" then ((1 # 4)%Q, [])
  else if String.eqb ric_prefix "NQ" then ((1 # 4)%Q, [])
  else ((1 # 2)%Q, [MsgTickNotDefined ric_prefix]).

End Pipeline.

Import Pipeline.

(* ------------------------------------------------------------------ *)
(** ** Cumulative volumes: [cumulative_sum_by_key] *)

Module Features.

(** The dictionary [cumulative_sum_data], and the frame built from it:
    column labels in insertion order, each with its series (one value
    per row of the input frame). *)
Definition VolumeFrame : Type := list (string * list Q).

Inductive FeatureMsg : Type :=
| MsgDepthNotPositive
| MsgL1SizeNotFound
| MsgSizeKeyNotFound (akey bkey : string) (last_level : nat)
| MsgPreviousVolumeNotFound (level : nat).

(** [x.fillna(0)] on one cell *)
Definition fillna0 (c : option Q) : Q :=
  match c with Some q => q | None => 0%Q end.

(** [df[key].fillna(0)] *)
Definition column_fillna0 (df : LobFrame) (key : string) : list Q :=
  map (fun r => fillna0 (lob_cell r key)) (lob_rows df).

(** [a + b] on two series over the same index. *)
Definition series_add (a b : list Q) : list Q :=
  map (fun p => (fst p + snd p)%Q) (combine a b).

(** [key in d] and [d[key]] *)
Fixpoint dict_get (k : string) (d : VolumeFrame) : option (list Q) :=
  match d with
  | [] => None
  | (k', v) :: rest => if String.eqb k k' then Some v else dict_get k rest
  end.

(** [d[key] = v]: a present key keeps its place, a new key goes last. *)
Fixpoint dict_set (k : string) (v : list Q) (d : VolumeFrame) : VolumeFrame :=
  match d with
  | [] => [(k, v)]
  | (k', v') :: rest =>
      if String.eqb k k' then (k, v) :: rest else (k', v') :: dict_set k v rest
  end.

(** The body of [for i in range(1, lob_state_depth + 1)], with its two
    [break]s. *)
Fixpoint cumulative_loop (df : LobFrame) (levels : list nat)
         (cumulative_sum_data : VolumeFrame) : VolumeFrame * list FeatureMsg :=
  match levels with
  | [] => (cumulative_sum_data, [])
  | i :: more =>
      let akey := level_col i "-AskSize" in
      let bkey := level_col i "-BidSize" in
      let cumulative_akey := level_col i "-AskVolume" in
      let cumulative_bkey := level_col i "-BidVolume" in
      if negb (in_columns akey df) || negb (in_columns bkey df)
      then (cumulative_sum_data, [MsgSizeKeyNotFound akey bkey (i - 1)])
      else if (i =? 1)%nat then
        let d1 := dict_set cumulative_akey (column_fillna0 df akey)
                           cumulative_sum_data in
        let d2 := dict_set cumulative_bkey (column_fillna0 df bkey) d1 in
        cumulative_loop df more d2
      else
        let prev_ask_vol_key := level_col (i - 1) "-AskVolume" in
        let prev_bid_vol_key := level_col (i - 1) "-BidVolume" in
        match dict_get prev_ask_vol_key cumulative_sum_data,
              dict_get prev_bid_vol_key cumulative_sum_data with
        | Some prev_ask, Some _ =>
            let d1 := dict_set cumulative_akey
                               (series_add (column_fillna0 df akey) prev_ask)
                               cumulative_sum_data in
            match dict_get prev_bid_vol_key d1 with
            | Some prev_bid =>
                let d2 := dict_set cumulative_bkey
                                   (series_add (column_fillna0 df bkey) prev_bid)
                                   d1 in
                cumulative_loop df more d2
            | None => (d1, [])   (* a KeyError; the test above excludes it *)
            end
        | _, _ => (cumulative_sum_data, [MsgPreviousVolumeNotFound (i - 1)])
        end
  end.

Definition cumulative_sum_by_key (df : LobFrame) (lob_state_depth : Z)
  : VolumeFrame * list FeatureMsg :=
  if lob_empty df then ([], [])
  else if (lob_state_depth <=? 0)%Z then ([], [MsgDepthNotPositive])
  else if negb (in_columns "L1-AskSize" df) || negb (in_columns "L1-BidSize" df)
  then ([], [MsgL1SizeNotFound])
  else cumulative_loop df (seq 1 (Z.to_nat lob_state_depth)) [].

End Features.

Import Features.

(** *** Vocabulary for the cumulative volumes *)

(** Both size columns of level [i] are in the frame. *)
Definition sizes_present (df : LobFrame) (i : nat) : bool :=
  in_columns (level_col i "-AskSize") df && in_columns (level_col i "-BidSize") df.

(** Number of consecutive levels, from [a] on and at most [n] of them,
    whose size columns are in the frame. *)
Fixpoint leading_levels (df : LobFrame) (a n : nat) : nat :=
  match n with
  | O => O
  | S n' => if sizes_present df a then S (leading_levels df (S a) n') else O
  end.

(** The sum over the levels [1..i] of the size of one row on one side,
    a missing size counting for 0. *)
Fixpoint size_sum (side_size : string) (r : LobRow) (i : nat) : Q :=
  match i with
  | O => 0%Q
  | S i' => (size_sum side_size r i' + fillna0 (lob_cell r (level_col i side_size)))%Q
  end.

(** The series of cumulative volumes of level [i] on one side, level
    after level. *)
Fixpoint volume_series (df : LobFrame) (side_size : string) (i : nat) : list Q :=
  match i with
  | O => []
  | S i' =>
      match i' with
      | O => column_fillna0 df (level_col 1 side_size)
      | S _ => series_add (column_fillna0 df (level_col i side_size))
                          (volume_series df side_size i')
      end
  end.

(** The volume columns of the levels [1..k], ask before bid. *)
Definition volume_columns (df : LobFrame) (k : nat) : VolumeFrame :=
  flat_map (fun j => [(level_col j "-AskVolume", volume_series df "-AskSize" j);
                      (level_col j "-BidVolume", volume_series df "-BidSize" j)])
           (seq 1 k).

(** The labels of the volume columns of the levels [1..k]. *)
Definition volume_labels (k : nat) : list string :=
  flat_map (fun j => [level_col j "-AskVolume"; level_col j "-BidVolume"])
           (seq 1 k).

(* ------------------------------------------------------------------ *)
(** ** Hedge preparation: [filter_and_prepare_hedge_data]

    The raw hedge frame is modelled with its cells untyped: a cell holds
    a number, a text or nothing.  Its time column is modelled as parsed
    ([NaT] is [None]).  A row of a frame is only ever read at the
    columns of the frame.  The columns that the code compares with
    numbers or sorts on are read as numbers; the prints are left out. *)

Module HedgePrep.

Inductive cell : Type :=
| CNum (q : Q)
| CStr (s : string)
| CNaN.

Record RawHedgeRow : Type := mkRawHedgeRow {
  raw_time : option Z;             (* TRANSACTTIME / hedge_time *)
  raw_cell : string -> cell
}.

Record RawHedgeFrame : Type := mkRawHedgeFrame {
  raw_columns : list string;
  raw_rows    : list RawHedgeRow
}.

Definition in_raw_columns (c : string) (cols : list string) : bool :=
  existsb (String.eqb c) cols.

(** [row[col] == x] for a number [x]: false on a text or missing cell. *)
Definition num_is (c : cell) (x : Q) : bool :=
  match c with CNum q => Qeq_bool q x | _ => false end.

(** [row[col] == s] for a text [s]. *)
Definition str_is (c : cell) (s : string) : bool :=
  match c with CStr t => String.eqb t s | _ => false end.

(** Equality of two cells for [drop_duplicates]: missing values are
    equal to each other. *)
Definition cell_eqb (a b : cell) : bool :=
  match a, b with
  | CNum x, CNum y => Qeq_bool x y
  | CStr s, CStr t => String.eqb s t
  | CNaN, CNaN => true
  | _, _ => false
  end.

Definition relevant_cols : list string :=
  ["CLORDID"; "SIDE"; "ORDERQTY"; "PRICE"; "CURRENCY";
   "TIMEINFORCE"; "MKT_PRICE"; "BID"; "OFFER"; "VWAP";
   "STATUS"; "TRANSACTTIME"; "EXECTYPE"; "CUMQTY";
   "LEAVESQTY"; "EXEC_PRICE"; "RIC"].

Definition duplicate_cols : list string :=
  ["CLORDID"; "SIDE"; "ORDERQTY"; "PRICE"; "CURRENCY";
   "TIMEINFORCE"; "MKT_PRICE"; "BID"; "OFFER"; "VWAP";
   "STATUS"; "EXECTYPE"; "CUMQTY"; "LEAVESQTY";
   "EXEC_PRICE"; "RIC"].

(** Filter 1: [(ORDERQTY == 1) & (EXECTYPE == 4)] *)
Definition is_cancelled (r : RawHedgeRow) : bool :=
  num_is (raw_cell r "ORDERQTY") 1 && num_is (raw_cell r "EXECTYPE") 4.

(** Filter 2: [(CUMQTY == 0) & (LEAVESQTY == 0)] *)
Definition has_no_volume (r : RawHedgeRow) : bool :=
  num_is (raw_cell r "CUMQTY") 0 && num_is (raw_cell r "LEAVESQTY") 0.

(** Two rows agree on every column of [subset]. *)
Definition same_on (subset : list string) (a b : RawHedgeRow) : bool :=
  forallb (fun c => cell_eqb (raw_cell a c) (raw_cell b c)) subset.

(** [drop_duplicates(subset=..., keep='first')], with the rows already
    kept in [seen]. *)
Fixpoint drop_duplicates_from (subset : list string) (seen : list RawHedgeRow)
         (rows : list RawHedgeRow) : list RawHedgeRow :=
  match rows with
  | [] => []
  | r :: rest =>
      if existsb (same_on subset r) seen
      then drop_duplicates_from subset seen rest
      else r :: drop_duplicates_from subset (r :: seen) rest
  end.

(** Comparison of two sort keys that may be missing: a missing key goes
    last ([na_position='last']). *)
Definition time_compare (a b : option Z) : comparison :=
  match a, b with
  | Some x, Some y => (x ?= y)%Z
  | Some _, None => Lt
  | None, Some _ => Gt
  | None, None => Eq
  end.

Definition num_of (c : cell) : option Q :=
  match c with CNum q => Some q | _ => None end.

Definition num_leb (a b : option Q) : bool :=
  match a, b with
  | Some x, Some y => Qle_bool x y
  | _, None => true
  | None, Some _ => false
  end.

(** Order of the rows under [sort_by_cols]: by time, then by [CUMQTY]
    when that column is there. *)
Definition key_leb (by_cumqty : bool) (a b : RawHedgeRow) : bool :=
  match time_compare (raw_time a) (raw_time b) with
  | Lt => true
  | Gt => false
  | Eq => if by_cumqty
          then num_leb (num_of (raw_cell a "CUMQTY")) (num_of (raw_cell b "CUMQTY"))
          else true
  end.

Fixpoint insert_by_key (by_cumqty : bool) (r : RawHedgeRow)
         (rows : list RawHedgeRow) : list RawHedgeRow :=
  match rows with
  | [] => [r]
  | x :: rest =>
      if key_leb by_cumqty r x then r :: x :: rest
      else x :: insert_by_key by_cumqty r rest
  end.

(** [df.sort_values(by=sort_by_cols)].  The relative order of rows with
    equal keys is kept. *)
Fixpoint sort_values_by (by_cumqty : bool) (rows : list RawHedgeRow)
  : list RawHedgeRow :=
  match rows with
  | [] => []
  | r :: rest => insert_by_key by_cumqty r (sort_values_by by_cumqty rest)
  end.

(** [rename(columns={'TRANSACTTIME': 'hedge_time'})] *)
Definition rename_transacttime (cols : list string) : list string :=
  map (fun c => if String.eqb c "TRANSACTTIME" then "hedge_time" else c) cols.

Definition filter_and_prepare_hedge_data (df_h : RawHedgeFrame)
           (specific_ric : string) : RawHedgeFrame :=
  match raw_rows df_h with
  | [] => df_h
  | _ :: _ =>
      if negb (in_raw_columns "TRANSACTTIME" (raw_columns df_h)) then df_h
      else
        (* the relevant columns that the frame has; TRANSACTTIME is one *)
        let cols := filter (fun c => in_raw_columns c (raw_columns df_h))
                           relevant_cols in
        let by_ric := truthy specific_ric && in_raw_columns "RIC" cols in
        let rows1 :=
          if by_ric
          then filter (fun r => str_is (raw_cell r "RIC") specific_ric)
                      (raw_rows df_h)
          else raw_rows df_h in
        match rows1 with
        | [] => if by_ric
                then {| raw_columns := cols; raw_rows := [] |}
                else {| raw_columns := rename_transacttime cols; raw_rows := [] |}
        | _ :: _ =>
            let rows2 :=
              if in_raw_columns "ORDERQTY" cols && in_raw_columns "EXECTYPE" cols
              then filter (fun r => negb (is_cancelled r)) rows1
              else rows1 in
            let rows3 :=
              if in_raw_columns "CUMQTY" cols && in_raw_columns "LEAVESQTY" cols
              then filter (fun r => negb (has_no_volume r)) rows2
              else rows2 in
            let subset_cols_for_duplicates :=
              filter (fun c => in_raw_columns c cols) duplicate_cols in
            let rows4 :=
              match subset_cols_for_duplicates with
              | [] => rows3
              | _ :: _ => drop_duplicates_from subset_cols_for_duplicates [] rows3
              end in
            {| raw_columns := rename_transacttime cols;
               raw_rows := sort_values_by (in_raw_columns "CUMQTY" cols) rows4 |}
        end
  end.

End HedgePrep.

Import HedgePrep.

(** *** Vocabulary for the hedge preparation *)

(** The columns the prepared hedge frame keeps. *)
Definition kept_hedge_columns (df_h : RawHedgeFrame) : list string :=
  filter (fun c => in_raw_columns c (raw_columns df_h)) relevant_cols.

(** The columns on which duplicates are recognised. *)
Definition duplicate_subset (df_h : RawHedgeFrame) : list string :=
  filter (fun c => in_raw_columns c (kept_hedge_columns df_h)) duplicate_cols.

(** The frame goes through the whole preparation: it has rows and a
    [TRANSACTTIME] column. *)
Definition preparable (df_h : RawHedgeFrame) : Prop :=
  raw_rows df_h <> [] /\ in_raw_columns "TRANSACTTIME" (raw_columns df_h) = true.

(** The rows left by the RIC filter and the two filters, before the
    de-duplication. *)
Definition filtered_hedge_rows (df_h : RawHedgeFrame) (specific_ric : string)
  : list RawHedgeRow :=
  let cols := kept_hedge_columns df_h in
  let rows1 :=
    if truthy specific_ric && in_raw_columns "RIC" cols
    then filter (fun r => str_is (raw_cell r "RIC") specific_ric) (raw_rows df_h)
    else raw_rows df_h in
  let rows2 :=
    if in_raw_columns "ORDERQTY" cols && in_raw_columns "EXECTYPE" cols
    then filter (fun r => negb (is_cancelled r)) rows1
    else rows1 in
  if in_raw_columns "CUMQTY" cols && in_raw_columns "LEAVESQTY" cols
  then filter (fun r => negb (has_no_volume r)) rows2
  else rows2.

(** The rows left by the de-duplication, before the sort. *)
Definition deduplicated_hedge_rows (df_h : RawHedgeFrame) (specific_ric : string)
  : list RawHedgeRow :=
  match duplicate_subset df_h with
  | [] => filtered_hedge_rows df_h specific_ric
  | _ :: _ => drop_duplicates_from (duplicate_subset df_h) []
                                   (filtered_hedge_rows df_h specific_ric)
  end.


(** What a row must satisfy to survive the filters of the preparation. *)
Definition survives_filters (df_h : RawHedgeFrame) (specific_ric : string)
           (r : RawHedgeRow) : Prop :=
  (truthy specific_ric = true ->
   in_raw_columns "RIC" (kept_hedge_columns df_h) = true ->
   raw_cell r "RIC" = CStr specific_ric) /\
  (in_raw_columns "ORDERQTY" (kept_hedge_columns df_h) = true ->
   in_raw_columns "EXECTYPE" (kept_hedge_columns df_h) = true ->
   is_cancelled r = false) /\
  (in_raw_columns "CUMQTY" (kept_hedge_columns df_h) = true ->
   in_raw_columns "LEAVESQTY" (kept_hedge_columns df_h) = true ->
   has_no_volume r = false).

(** *** A sample raw hedge frame *)

Module HedgeSample.

Import Sample.

(** A raw hedge row given by its time and its labelled cells. *)
Fixpoint hedge_cells (l : list (string * cell)) (c : string) : cell :=
  match l with
  | [] => CNaN
  | (k, v) :: rest => if String.eqb c k then v else hedge_cells rest c
  end.

Definition raw_fill (t_ms : Z) (id ric : string) (orderqty exectype cum leaves : Q)
  : RawHedgeRow :=
  {| raw_time := Some (ms t_ms);
     raw_cell := hedge_cells [("CLORDID", CStr id); ("RIC", CStr ric);
                              ("SIDE", CNum 1); ("ORDERQTY", CNum orderqty);
                              ("EXECTYPE", CNum exectype); ("CUMQTY", CNum cum);
                              ("LEAVESQTY", CNum leaves);
                              ("EXEC_PRICE", CNum (201 # 2))] |}.

(** Six raw rows: the second partial fill of an order, its first partial
    fill, a cancellation, a row without volume, a repetition of the
    first partial fill with a later time, and a fill of another
    instrument. *)
Definition raw_hedge : RawHedgeFrame :=
  {| raw_columns := ["CLORDID"; "RIC"; "SIDE"; "ORDERQTY"; "EXECTYPE"; "CUMQTY";
                     "LEAVESQTY"; "EXEC_PRICE"; "TRANSACTTIME"; "COMMENT"];
     raw_rows :=
       [raw_fill 10100 "D" "FFIH4" 12 2 12 0;
        raw_fill 10000 "D" "FFIH4" 12 1 5 7;
        raw_fill 10200 "E" "FFIH4" 1 4 0 1;
        raw_fill 10300 "F" "FFIH4" 3 0 0 0;
        raw_fill 10050 "D" "FFIH4" 12 1 5 7;
        raw_fill 10400 "G" "ESH4" 2 2 2 0] |}.

End HedgeSample.

(* ------------------------------------------------------------------ *)
(** ** Volume imbalance and differences in [add_public_lob_features]

    Two parts of the function are modelled, each on the frame it reads:
    the loop that derives the volume imbalance from the cumulative
    volumes, and the differences of the price and size columns. *)

Module Enrichment.

(** A frame of derived columns whose cells may be NaN. *)
Definition FeatureFrame : Type := list (string * list (option Q)).

(** One cell of [temp_imb_series]: the quotient where the mask
    [(bid != 0) & ~bid.isna() & ~ask.isna()] holds, NaN elsewhere.  The
    cumulative volumes are never NaN. *)
Definition imbalance_cell (ask_volume bid_volume : Q) : option Q :=
  if Qeq_bool bid_volume 0 then None else Some (ask_volume / bid_volume)%Q.

(** [temp_imb_series] for level [i]: all NaN unless both volume columns
    are in [cum_volume_df]. *)
Definition imbalance_series (n_rows : nat) (cum_volume_df : VolumeFrame) (i : nat)
  : list (option Q) :=
  match dict_get (level_col i "-AskVolume") cum_volume_df,
        dict_get (level_col i "-BidVolume") cum_volume_df with
  | Some ask_volume, Some bid_volume =>
      map (fun p => imbalance_cell (fst p) (snd p)) (combine ask_volume bid_volume)
  | _, _ => repeat None n_rows
  end.

(** [volume_imbalance_final_df]: ten columns when [cum_volume_df] is not
    empty, none otherwise. *)
Definition volume_imbalance_features (df_o : LobFrame) : FeatureFrame :=
  let cum_volume_df := fst (cumulative_sum_by_key df_o 10) in
  match cum_volume_df with
  | [] => []
  | _ :: _ =>
      map (fun i => (level_col i "-VolumeImbalance",
                     imbalance_series (List.length (lob_rows df_o)) cum_volume_df i))
          (seq 1 10)
  end.






End Enrichment.

Import Enrichment.

(** *** Vocabulary for the derived columns *)

(** What a cell of the volume imbalance of level [i] says about its
    row, [k] being the number of leading levels with size columns: it
    is a number when the level is among them and the cumulative bid size
    is not zero, and that number is the quotient of the cumulative sizes
    when the quotient is a binary64 value. *)
Definition imbalance_cell_ok (k i : nat) (r : LobRow) (c : option Q) : Prop :=
  match c with
  | Some v =>
      (i <= k)%nat /\ ~ (size_sum "-BidSize" r i == 0)%Q /\
      (binary64_value (size_sum "-AskSize" r i / size_sum "-BidSize" r i) ->
       (v == size_sum "-AskSize" r i / size_sum "-BidSize" r i)%Q)
  | None => (k < i)%nat \/ (size_sum "-BidSize" r i == 0)%Q
  end.

(** The cumulative sizes of both sides, up to level [i], are computed
    exactly in every row. *)
Definition exact_size_sums (df : LobFrame) (i : nat) : Prop :=
  forall r j, In r (lob_rows df) -> (1 <= j <= i)%nat ->
              exact_result (size_sum "-AskSize" r j) /\
              exact_result (size_sum "-BidSize" r j).



(* ================================================================== *)
(** * Properties of the window locator *)

Section LocatorFacts.

Import Locator.
Local Open Scope Z_scope.

(** A list sorted for [<=] is monotone in its positions. *)
Lemma sorted_nth_le (arr : list Z) :
  Sorted Z.le arr ->
  forall i j, (i <= j)%nat -> (j < List.length arr)%nat ->
              nth i arr 0 <= nth j arr 0.
Proof.
  intro Hs. apply Sorted_StronglySorted in Hs; [| intros x y z; apply Z.le_trans].
  induction Hs as [| a l Hl IH Hall]; intros i j Hij Hj; simpl in *.
  - lia.
  - destruct j as [| j'].
    + assert (i = 0)%nat by lia. subst. lia.
    + destruct i as [| i'].
      * rewrite Forall_forall in Hall. apply Hall. apply nth_In. lia.
      * apply IH; lia.
Qed.

(** [side_less] is downward closed in the array value. *)
Lemma side_less_mono side a b key :
  a <= b -> side_less side b key = true -> side_less side a key = true.
Proof.
  destruct side; simpl; intros Hab H.
  - apply Z.ltb_lt in H. apply Z.ltb_lt. lia.
  - apply Z.leb_le in H. apply Z.leb_le. lia.
Qed.

Lemma side_less_anti side a b key :
  a <= b -> side_less side a key = false -> side_less side b key = false.
Proof.
  intros Hab H. destruct (side_less side b key) eqn:E; [| reflexivity].
  rewrite (side_less_mono side a b key Hab E) in H. discriminate.
Qed.

(** One iteration of the search loop. *)
Lemma binsearch_step side arr key fuel lo hi :
  binsearch side arr key (S fuel) lo hi =
  if (lo <? hi)%nat then
    if side_less side (nth (lo + (hi - lo) / 2) arr 0) key
    then binsearch side arr key fuel (S (lo + (hi - lo) / 2)) hi
    else binsearch side arr key fuel lo (lo + (hi - lo) / 2)
  else lo.
Proof. reflexivity. Qed.

(** Loop invariant of the binary search: everything left of [min_idx]
    is "less", everything from [max_idx] on is not. *)
Lemma binsearch_invariant side arr key :
  Sorted Z.le arr ->
  forall fuel lo hi,
    (lo <= hi)%nat -> (hi <= List.length arr)%nat -> (hi - lo <= fuel)%nat ->
    (forall i, (i < lo)%nat -> side_less side (nth i arr 0) key = true) ->
    (forall i, (hi <= i)%nat -> (i < List.length arr)%nat ->
               side_less side (nth i arr 0) key = false) ->
    let r := binsearch side arr key fuel lo hi in
    (lo <= r)%nat /\ (r <= hi)%nat /\
    (forall i, (i < r)%nat -> side_less side (nth i arr 0) key = true) /\
    (forall i, (r <= i)%nat -> (i < List.length arr)%nat ->
               side_less side (nth i arr 0) key = false).
Proof.
  intro Hs. pose proof (sorted_nth_le arr Hs) as Hmono.
  induction fuel as [| fuel IH]; intros lo hi Hlh Hhi Hfuel Hlo Hup.
  - simpl. assert (lo = hi) by lia. subst. repeat split; auto.
  - cbv zeta. rewrite binsearch_step.
    destruct (lo <? hi)%nat eqn:Elh.
    + apply Nat.ltb_lt in Elh.
      set (mid := (lo + (hi - lo) / 2)%nat).
      assert (Hmid : (lo <= mid /\ mid < hi)%nat).
      { unfold mid.
        assert ((hi - lo) / 2 < hi - lo)%nat by (apply Nat.div_lt; lia). lia. }
      destruct (side_less side (nth mid arr 0) key) eqn:Emid.
      * assert (Hlo' : forall i, (i < S mid)%nat ->
                               side_less side (nth i arr 0) key = true).
        { intros i Hi. apply (side_less_mono side _ (nth mid arr 0)); [| exact Emid].
          apply Hmono; lia. }
        destruct (IH (S mid) hi ltac:(lia) Hhi ltac:(lia) Hlo' Hup)
          as (H1 & H2 & H3 & H4).
        repeat split; auto; lia.
      * assert (Hup' : forall i, (mid <= i)%nat -> (i < List.length arr)%nat ->
                               side_less side (nth i arr 0) key = false).
        { intros i Hi Hlen. apply (side_less_anti side (nth mid arr 0)); [| exact Emid].
          apply Hmono; lia. }
        destruct (IH lo mid ltac:(lia) ltac:(lia) ltac:(lia) Hlo Hup')
          as (H1 & H2 & H3 & H4).
        repeat split; auto; lia.
    + apply Nat.ltb_ge in Elh. assert (lo = hi) by lia. subst.
      repeat split; auto.
Qed.

(** What [searchsorted] returns on a sorted column. *)
Lemma searchsorted_spec (arr : list Z) (key : Z) (side : SearchSide) :
  Sorted Z.le arr ->
  let r := searchsorted arr key side in
  (r <= List.length arr)%nat /\
  (forall i, (i < r)%nat -> side_less side (nth i arr 0) key = true) /\
  (forall i, (r <= i)%nat -> (i < List.length arr)%nat ->
             side_less side (nth i arr 0) key = false).
Proof.
  intro Hs. unfold searchsorted.
  assert (H0 : forall i, (i < 0)%nat -> side_less side (nth i arr 0) key = true)
    by (intros i Hi; lia).
  assert (Hn : forall i, (List.length arr <= i)%nat -> (i < List.length arr)%nat ->
                         side_less side (nth i arr 0) key = false)
    by (intros i Hi Hl; lia).
  destruct (binsearch_invariant side arr key Hs (List.length arr) 0 (List.length arr)
              ltac:(lia) ltac:(lia) ltac:(lia) H0 Hn) as (_ & H2 & H3 & H4).
  repeat split; auto.
Qed.


End LocatorFacts.
Section LocatorClaims.

Import Locator.
Local Open Scope Z_scope.

(** A frame with rows and the column [lob_time] passes the guard of
    line 23. *)
Lemma searchable_frame (df_o : LobFrame) :
  lob_rows df_o <> [] ->
  in_columns "lob_time" df_o = true ->
  lob_empty df_o || negb (in_columns "lob_time" df_o) = false.
Proof.
  intros Hne Hcol. rewrite Hcol. unfold lob_empty.
  destruct (lob_rows df_o); [congruence |].
  unfold in_columns in Hcol.
  destruct (lob_columns df_o); [discriminate | reflexivity].
Qed.

Lemma timestamp_is_int64 z : is_timestamp z = true -> is_int64 z = true.
Proof.
  unfold is_timestamp, is_int64. intro H.
  apply andb_true_iff in H. destruct H as [H1 H2].
  apply Z.leb_le in H1. apply Z.leb_le in H2.
  apply andb_true_iff. split; apply Z.leb_le; lia.
Qed.

(** A representable window does not raise. *)
Lemma window_in_range_no_raise t T :
  window_in_range t T = true -> bounds_raise t T = false.
Proof.
  unfold window_in_range, bounds_raise. intro H.
  apply andb_true_iff in H. destruct H as [H H3].
  apply andb_true_iff in H. destruct H as [H1 H2].
  rewrite H1, (timestamp_is_int64 _ H2), (timestamp_is_int64 _ H3). reflexivity.
Qed.

Lemma row_window_in_range_no_raise df_h df_o irow T :
  row_window_in_range df_h irow T = true ->
  find_closest_lob_indexes_raises df_h df_o irow T = false.
Proof.
  unfold row_window_in_range, find_closest_lob_indexes_raises.
  destruct (nth_error (hedge_rows df_h) irow) as [ev |]; [| reflexivity].
  destruct (hedge_time ev) as [t |]; [| reflexivity].
  apply window_in_range_no_raise.
Qed.


End LocatorClaims.



(** On the sample book the window of a fill at 10s with a threshold of
    2s is [[0, 5)]: the snapshots at exactly 9.0s and 12.0s are in, the
    one at 12.5s is out. *)
Example locate_window_sample :
  Locator.find_closest_lob_indexes
    (Sample.fills [Sample.buy_fill "A" 5 (201#2) 10000]) Sample.book 0 Sample.two_seconds
  = ((0%Z, 5%Z), []).
Proof. reflexivity. Qed.

(* ================================================================== *)
(** * Properties of the level matcher *)

Section ScanFacts.

Import Engine.

(** The row loop returns the first accepted row of the window. *)
Lemma scan_rows_some accept window idx row :
  scan_rows accept window = Some (idx, row) <->
  exists k, nth_error window k = Some (idx, row) /\ accept row = true /\
            forall k' p, (k' < k)%nat -> nth_error window k' = Some p ->
                         accept (snd p) = false.
Proof.
  induction window as [| [i r] rest IH]; simpl.
  - split; [discriminate |]. intros (k & Hk & _). destruct k; discriminate.
  - destruct (accept r) eqn:Ea.
    + split.
      * intro H. inversion H; subst. exists 0%nat. repeat split; auto.
        intros k' p Hlt. lia.
      * intros (k & Hk & Hacc & Hfirst). destruct k as [| k].
        -- simpl in Hk. congruence.
        -- specialize (Hfirst 0%nat (i, r) ltac:(lia) eq_refl). simpl in Hfirst.
           congruence.
    + rewrite IH. split.
      * intros (k & Hk & Hacc & Hfirst). exists (S k). repeat split; auto.
        intros k' p Hlt Hp. destruct k' as [| k'].
        -- simpl in Hp. inversion Hp; subst. exact Ea.
        -- simpl in Hp. apply (Hfirst k' p); [lia | exact Hp].
      * intros (k & Hk & Hacc & Hfirst). destruct k as [| k].
        -- simpl in Hk. inversion Hk; subst. congruence.
        -- exists k. repeat split; auto.
           intros k' p Hlt Hp. apply (Hfirst (S k') p); [lia | exact Hp].
Qed.

Lemma scan_rows_none accept window :
  scan_rows accept window = None <->
  forall k p, nth_error window k = Some p -> accept (snd p) = false.
Proof.
  induction window as [| [i r] rest IH]; simpl.
  - split; auto. intros _ k p Hk. destruct k; discriminate.
  - destruct (accept r) eqn:Ea.
    + split; [discriminate |]. intro H.
      specialize (H 0%nat (i, r) eq_refl). simpl in H. congruence.
    + rewrite IH. split.
      * intros H k p Hk. destruct k as [| k].
        -- simpl in Hk. inversion Hk; subst. exact Ea.
        -- apply (H k p Hk).
      * intros H k p Hk. apply (H (S k) p Hk).
Qed.

Lemma scan_levels_some df_o psfx ssfx accept window :
  forall len a n idx row,
    scan_levels df_o psfx ssfx accept window (seq a len) = Some (n, idx, row) <->
    (a <= n < a + len)%nat /\
    level_hit df_o psfx ssfx accept window n = Some (idx, row) /\
    forall n', (a <= n' < n)%nat ->
               level_hit df_o psfx ssfx accept window n' = None.
Proof.
  induction len as [| len IH]; intros a n idx row; simpl.
  - split; [discriminate | lia].
  - assert (Hstep :
      scan_levels df_o psfx ssfx accept window (a :: seq (S a) len) =
      match level_hit df_o psfx ssfx accept window a with
      | Some (i, r) => Some (a, i, r)
      | None => scan_levels df_o psfx ssfx accept window (seq (S a) len)
      end).
    { simpl. unfold level_hit, level_present.
      destruct (in_columns (level_col a psfx) df_o),
               (in_columns (level_col a ssfx) df_o); reflexivity. }
    change (scan_levels df_o psfx ssfx accept window (a :: seq (S a) len)
            = Some (n, idx, row) <->
            (a <= n < a + S len)%nat /\
            level_hit df_o psfx ssfx accept window n = Some (idx, row) /\
            (forall n', (a <= n' < n)%nat ->
                        level_hit df_o psfx ssfx accept window n' = None)).
    rewrite Hstep.
    destruct (level_hit df_o psfx ssfx accept window a) as [[i r] |] eqn:Ha.
    + split.
      * intro H. inversion H; subst. repeat split; try lia; auto.
      * intros (Hr & Hhit & Hmin).
        destruct (Nat.eq_dec n a) as [-> | Hne].
        -- congruence.
        -- rewrite (Hmin a ltac:(lia)) in Ha. discriminate.
    + rewrite IH. split.
      * intros (Hr & Hhit & Hmin). repeat split; try lia; auto.
        intros n' Hn'. destruct (Nat.eq_dec n' a) as [-> | Hne]; auto.
        apply Hmin. lia.
      * intros (Hr & Hhit & Hmin).
        assert (n <> a) by (intro; subst; congruence).
        repeat split; try lia; auto. intros n' Hn'. apply Hmin. lia.
Qed.

Lemma scan_levels_none df_o psfx ssfx accept window :
  forall len a,
    scan_levels df_o psfx ssfx accept window (seq a len) = None <->
    forall n, (a <= n < a + len)%nat ->
              level_hit df_o psfx ssfx accept window n = None.
Proof.
  intros len a.
  destruct (scan_levels df_o psfx ssfx accept window (seq a len))
    as [[[n i] r] |] eqn:E.
  - split; [discriminate |]. intro H.
    apply scan_levels_some in E. destruct E as (Hr & Hhit & _).
    rewrite (H n Hr) in Hhit. discriminate.
  - split; auto. intros _ n Hn.
    destruct (level_hit df_o psfx ssfx accept window n) as [[i r] |] eqn:Hhit; auto.
    exfalso.
    (* take the least level at or below [n] with a hit *)
    assert (Hex : exists m i' r', (a <= m <= n)%nat /\
                    level_hit df_o psfx ssfx accept window m = Some (i', r') /\
                    forall n', (a <= n' < m)%nat ->
                               level_hit df_o psfx ssfx accept window n' = None).
    { clear E. revert i r Hhit. induction n as [n IHn] using lt_wf_ind.
      intros i r Hhit.
      destruct (scan_levels df_o psfx ssfx accept window (seq a (n - a)))
        as [[[m i'] r'] |] eqn:E'.
      - apply scan_levels_some in E'. destruct E' as (Hr & Hh & Hm).
        exists m, i', r'. repeat split; auto; lia.
      - exists n, i, r. repeat split; auto; try lia.
        intros n' Hn'.
        destruct (level_hit df_o psfx ssfx accept window n') as [[i2 r2] |] eqn:E2; auto.
        destruct (IHn n' ltac:(lia) ltac:(lia) i2 r2 E2) as (m & i3 & r3 & Hm & Hh & Hmin).
        assert (Hs : scan_levels df_o psfx ssfx accept window (seq a (n - a))
                     = Some (m, i3, r3)).
        { apply scan_levels_some. repeat split; auto; lia. }
        congruence. }
    destruct Hex as (m & i' & r' & Hm & Hh & Hmin).
    assert (Hs : scan_levels df_o psfx ssfx accept window (seq a len) = Some (m, i', r')).
    { apply scan_levels_some. repeat split; auto; lia. }
    congruence.
Qed.

End ScanFacts.

Section MatcherFacts.

Lemma nth_error_combine {A B} (l1 : list A) (l2 : list B) :
  forall k,
    nth_error (combine l1 l2) k =
    match nth_error l1 k, nth_error l2 k with
    | Some a, Some b => Some (a, b)
    | _, _ => None
    end.
Proof.
  revert l2. induction l1 as [| a l1 IH]; intros l2 k.
  - destruct k; reflexivity.
  - destruct l2 as [| b l2].
    + destruct k; simpl; [reflexivity |]. destruct (nth_error l1 k); reflexivity.
    + destruct k; simpl; [reflexivity | apply IH].
Qed.

(** The [k]-th element of the iteration over the window is the row at
    position [start + k], labelled by that position. *)
Lemma iterrows_window_nth df_o s e k idx row :
  nth_error (iterrows_window df_o s e) k = Some (idx, row) <->
  idx = (s + k)%nat /\ in_window df_o s e k row.
Proof.
  unfold iterrows_window, in_window.
  rewrite nth_error_combine, nth_error_seq, nth_error_firstn, nth_error_skipn.
  destruct (Nat.ltb_spec k (e - s)) as [Hlt | Hge].
  - destruct (nth_error (lob_rows df_o) (s + k)) as [r |].
    + split.
      * intro H. inversion H; subst. repeat split; auto. lia.
      * intros (-> & _ & Hr). inversion Hr; subst. reflexivity.
    + split; [discriminate |]. intros (_ & _ & Hr). discriminate.
  - split; [discriminate |]. intros (_ & Hk & _). lia.
Qed.

Lemma Qltb_lt x y : Qltb x y = true <-> (x < y)%Q.
Proof.
  unfold Qltb. rewrite negb_true_iff. split.
  - intro H. apply Qnot_le_lt. intro Hle.
    apply Qle_bool_iff in Hle. congruence.
  - intro H. destruct (Qle_bool y x) eqn:E; auto.
    apply Qle_bool_iff in E. exfalso. apply (Qlt_not_le _ _ H E).
Qed.

Lemma Qle_bool_false x y : Qle_bool x y = false <-> (y < x)%Q.
Proof.
  split.
  - intro H. apply Qnot_le_lt. intro Hle. apply Qle_bool_iff in Hle. congruence.
  - intro H. destruct (Qle_bool x y) eqn:E; auto.
    apply Qle_bool_iff in E. exfalso. apply (Qlt_not_le _ _ H E).
Qed.

Lemma frame_cell_present df_o row c :
  in_columns c df_o = true -> frame_cell df_o row c = lob_cell row c.
Proof. unfold frame_cell. intros ->. reflexivity. Qed.

Lemma frame_cell_some df_o row c v :
  frame_cell df_o row c = Some v ->
  in_columns c df_o = true /\ lob_cell row c = Some v.
Proof.
  unfold frame_cell. destruct (in_columns c df_o); [auto | discriminate].
Qed.

(** The test of pass 1, together with the column check of the level
    loop, is the exact-match condition. *)
Lemma exact_accept_condition df_o psfx ssfx price fill n row :
  level_present df_o psfx ssfx n
  && exact_accept (level_col n psfx) (level_col n ssfx) price fill row = true
  <-> exact_condition df_o psfx ssfx price fill n row.
Proof.
  unfold level_present, exact_condition, size_sufficient, exact_accept.
  rewrite !andb_true_iff. split.
  - intros [[Hp Hs] Hacc].
    rewrite !frame_cell_present by assumption.
    destruct (lob_cell row (level_col n psfx)) as [p |]; [| discriminate].
    destruct (Qltb (Qabs (p - price)) eps) eqn:Ep; [| discriminate].
    destruct (lob_cell row (level_col n ssfx)) as [s |]; [| discriminate].
    split.
    + exists p. split; [reflexivity | apply Qltb_lt; exact Ep].
    + exists s. split; [reflexivity | apply Qle_bool_iff; exact Hacc].
  - intros [(p & Hp & Hlt) (s & Hs & Hle)].
    apply frame_cell_some in Hp. destruct Hp as [Hpc Hp].
    apply frame_cell_some in Hs. destruct Hs as [Hsc Hs].
    rewrite Hpc, Hsc, Hp, Hs.
    apply Qltb_lt in Hlt. rewrite Hlt.
    apply Qle_bool_iff in Hle. auto.
Qed.

(** The same for pass 2. *)
Lemma fuzzy_accept_condition df_o tick psfx ssfx price fill n row :
  level_present df_o psfx ssfx n
  && fuzzy_accept tick (level_col n psfx) (level_col n ssfx) price fill row = true
  <-> fuzzy_condition df_o tick psfx ssfx price fill n row.
Proof.
  unfold level_present, fuzzy_condition, size_sufficient, fuzzy_accept.
  rewrite !andb_true_iff. split.
  - intros [[Hp Hs] Hacc].
    rewrite !frame_cell_present by assumption.
    destruct (lob_cell row (level_col n psfx)) as [p |]; [| discriminate].
    destruct (Qle_bool (Qabs (p - price)) (tick + eps)) eqn:Ep; [| discriminate].
    destruct (lob_cell row (level_col n ssfx)) as [s |]; [| discriminate].
    split.
    + exists p. split; [reflexivity | apply Qle_bool_iff; exact Ep].
    + exists s. split; [reflexivity | apply Qle_bool_iff; exact Hacc].
  - intros [(p & Hp & Hlt) (s & Hs & Hle)].
    apply frame_cell_some in Hp. destruct Hp as [Hpc Hp].
    apply frame_cell_some in Hs. destruct Hs as [Hsc Hs].
    rewrite Hpc, Hsc, Hp, Hs.
    apply Qle_bool_iff in Hlt. rewrite Hlt.
    apply Qle_bool_iff in Hle. auto.
Qed.

(** A traversal of the ten levels over a window, for an acceptance test
    that decides [cond]. *)
Section Traversal.

Variables (df_o : LobFrame) (psfx ssfx : string).
Variable accept : string -> string -> LobRow -> bool.
Variable cond : nat -> LobRow -> Prop.
Hypothesis accept_cond :
  forall n row,
    level_present df_o psfx ssfx n
    && accept (level_col n psfx) (level_col n ssfx) row = true <-> cond n row.
Variables s e : nat.

Lemma level_hit_none n :
  level_hit df_o psfx ssfx accept (iterrows_window df_o s e) n = None <->
  forall k row, in_window df_o s e k row -> ~ cond n row.
Proof.
  unfold level_hit. split.
  - intros H k row Hin Hc. apply accept_cond in Hc.
    apply andb_true_iff in Hc. destruct Hc as [Hp Ha]. rewrite Hp in H.
    rewrite scan_rows_none in H.
    specialize (H k (s + k, row)%nat).
    rewrite iterrows_window_nth in H. simpl in H.
    rewrite H in Ha; [discriminate | auto].
  - intro H. destruct (level_present df_o psfx ssfx n) eqn:Hp; [| reflexivity].
    apply scan_rows_none. intros k [idx row] Hk. simpl.
    apply iterrows_window_nth in Hk. destruct Hk as [-> Hin].
    destruct (accept (level_col n psfx) (level_col n ssfx) row) eqn:Ha; auto.
    exfalso. apply (H k row Hin). apply accept_cond. rewrite Hp, Ha. reflexivity.
Qed.

Lemma level_hit_some n idx row :
  level_hit df_o psfx ssfx accept (iterrows_window df_o s e) n = Some (idx, row) <->
  exists k, idx = (s + k)%nat /\ in_window df_o s e k row /\ cond n row /\
            forall k' row', (k' < k)%nat -> in_window df_o s e k' row' ->
                            ~ cond n row'.
Proof.
  unfold level_hit. split.
  - destruct (level_present df_o psfx ssfx n) eqn:Hp; [| discriminate].
    intro H. apply scan_rows_some in H. destruct H as (k & Hk & Ha & Hfirst).
    apply iterrows_window_nth in Hk. destruct Hk as [-> Hin].
    exists k. split; [reflexivity |]. split; [exact Hin |]. split.
    + apply accept_cond. rewrite Hp, Ha. reflexivity.
    + intros k' row' Hlt Hin' Hc. apply accept_cond in Hc.
      apply andb_true_iff in Hc. destruct Hc as [_ Ha'].
      specialize (Hfirst k' (s + k', row')%nat Hlt).
      rewrite iterrows_window_nth in Hfirst. simpl in Hfirst.
      rewrite Hfirst in Ha'; [discriminate | auto].
  - intros (k & -> & Hin & Hc & Hfirst).
    apply accept_cond in Hc. apply andb_true_iff in Hc. destruct Hc as [Hp Ha].
    rewrite Hp. apply scan_rows_some. exists k. repeat split; auto.
    + apply iterrows_window_nth. auto.
    + intros k' [idx' row'] Hlt Hk'. simpl.
      apply iterrows_window_nth in Hk'. destruct Hk' as [-> Hin'].
      destruct (accept (level_col n psfx) (level_col n ssfx) row') eqn:Ha'; auto.
      exfalso. apply (Hfirst k' row' Hlt Hin'). apply accept_cond.
      rewrite Hp, Ha'. reflexivity.
Qed.

(** The pass returns the first pair of the traversal at which the
    condition holds. *)
Lemma pass_some n idx row :
  scan_levels df_o psfx ssfx accept (iterrows_window df_o s e) level_range
  = Some (n, idx, row) <->
  exists k, idx = (s + k)%nat /\ first_in_traversal df_o s e cond n k row.
Proof.
  unfold level_range. rewrite scan_levels_some. unfold first_in_traversal. split.
  - intros (Hr & Hhit & Hmin). apply level_hit_some in Hhit.
    destruct Hhit as (k & -> & Hin & Hc & Hfirst).
    exists k. split; [reflexivity |]. split; [lia |]. split; [exact Hin |].
    split; [exact Hc |]. split; [| exact Hfirst].
    intros n' k' row' Hn' Hin'.
    specialize (Hmin n' ltac:(lia)). rewrite level_hit_none in Hmin.
    apply (Hmin k' row' Hin').
  - intros (k & -> & Hr & Hin & Hc & Hmin & Hfirst).
    split; [lia |]. split.
    + apply level_hit_some. exists k. auto.
    + intros n' Hn'. apply level_hit_none. intros k' row' Hin'.
      apply (Hmin n' k' row'); auto.
Qed.

(** The pass finds nothing exactly when the condition holds nowhere. *)
Lemma pass_none :
  scan_levels df_o psfx ssfx accept (iterrows_window df_o s e) level_range = None <->
  forall n k row, (1 <= n <= 10)%nat -> in_window df_o s e k row -> ~ cond n row.
Proof.
  unfold level_range. rewrite scan_levels_none. split.
  - intros H n k row Hn Hin. specialize (H n ltac:(lia)).
    rewrite level_hit_none in H. apply (H k row Hin).
  - intros H n Hn. apply level_hit_none. intros k row Hin.
    apply (H n k row); auto. lia.
Qed.

End Traversal.

End MatcherFacts.

(* ================================================================== *)
(** * Properties of the loop over the fill events *)

Section LoopFacts.

Variables (df_h : HedgeFrame) (df_o : LobFrame).
Variables (t_threshold : Z) (tick_size : Q).

(** Case analysis along the branches of the loop body. *)
Ltac loop_cases :=
  unfold event_records, loop_body;
  repeat match goal with
         | |- context [match nth_error (hedge_rows df_h) ?i with _ => _ end] =>
             destruct (nth_error (hedge_rows df_h) i)
         | |- context [if not_a_fill df_h ?ev then _ else _] =>
             destruct (not_a_fill df_h ev)
         | |- context [find_closest_lob_indexes ?a ?b ?c ?d] =>
             destruct (find_closest_lob_indexes a b c d) as [[? ?] ?]
         | |- context [if ?b then _ else _] =>
             match type of b with bool => destruct b end
         | |- context [match side_columns ?ev with _ => _ end] =>
             destruct (side_columns ev) as [[[? ?] ?] |]
         | |- context [match ord_size_this_fill ?a ?b ?c with _ => _ end] =>
             destruct (ord_size_this_fill a b c)
         | |- context [match EXEC_PRICE ?ev with _ => _ end] =>
             destruct (EXEC_PRICE ev)
         | |- context [record_match _ ?f] =>
             destruct f as [[? ? ? ? ? ? ? ? ? ? []] |]; unfold record_match
         end;
  simpl.

(** The records appended by an iteration do not depend on the state it
    starts from. *)
Lemma loop_body_matched st irow :
  matched_data_list (loop_body df_h df_o t_threshold tick_size st irow)
  = matched_data_list st ++ event_records df_h df_o t_threshold tick_size irow.
Proof. loop_cases; try reflexivity; rewrite ?app_nil_r; reflexivity. Qed.

(** An iteration appends at most one record. *)
Lemma event_records_at_most_one irow :
  event_records df_h df_o t_threshold tick_size irow = [] \/
  exists rec, event_records df_h df_o t_threshold tick_size irow = [rec].
Proof. loop_cases; eauto. Qed.

(** The counters of the two kinds follow the appended records. *)
Lemma loop_body_exact st irow :
  num_exact_price_matches (loop_body df_h df_o t_threshold tick_size st irow)
  = (num_exact_price_matches st
     + count_kind exact (event_records df_h df_o t_threshold tick_size irow))%nat.
Proof. loop_cases; unfold count_kind; simpl; lia. Qed.

Lemma loop_body_fuzzy st irow :
  num_fuzzy_price_matches (loop_body df_h df_o t_threshold tick_size st irow)
  = (num_fuzzy_price_matches st
     + count_kind fuzzy (event_records df_h df_o t_threshold tick_size irow))%nat.
Proof. loop_cases; unfold count_kind; simpl; lia. Qed.

(** The attempts counter moves by one exactly for the rows that pass the
    fill-type test, whatever happens to them afterwards. *)
Lemma loop_body_attempted st irow :
  num_input_hedge_fill_events (loop_body df_h df_o t_threshold tick_size st irow)
  = (num_input_hedge_fill_events st
     + attempt_of df_h irow)%nat.
Proof.
  unfold attempt_of, loop_body.
  destruct (nth_error (hedge_rows df_h) irow) as [ev |]; [| lia].
  destruct (not_a_fill df_h ev); [lia |].
  destruct (find_closest_lob_indexes df_h df_o irow t_threshold) as [[a b] pr].
  destruct ((a =? -1)%Z || (b <=? a)%Z); [simpl; lia |].
  destruct (side_columns ev) as [[[? ?] ?] |]; [| simpl; lia].
  destruct (ord_size_this_fill df_h irow ev) as [q |]; [| simpl; lia].
  destruct (Qle_bool q 0); [simpl; lia |].
  destruct (EXEC_PRICE ev); [| simpl; lia].
  unfold record_match.
  match goal with |- context [find_match ?a ?b ?c ?d ?e ?f ?g ?h ?i ?j] =>
    destruct (find_match a b c d e f g h i j) end; simpl; lia.
Qed.

(** The sentinel of the locator makes the iteration stop before the
    side, size and price checks. *)
Lemma event_records_locator_error irow :
  fst (fst (find_closest_lob_indexes df_h df_o irow t_threshold)) = (-1)%Z ->
  event_records df_h df_o t_threshold tick_size irow = [].
Proof.
  intro H. unfold event_records, loop_body.
  destruct (nth_error (hedge_rows df_h) irow) as [ev |]; [| reflexivity].
  destruct (not_a_fill df_h ev); [reflexivity |].
  destruct (find_closest_lob_indexes df_h df_o irow t_threshold) as [[a b] pr].
  simpl in H. subst a. reflexivity.
Qed.

Lemma locator_empty_frame irow :
  lob_empty df_o = true ->
  fst (find_closest_lob_indexes df_h df_o irow t_threshold) = ((-1)%Z, (-1)%Z).
Proof.
  intro H. unfold find_closest_lob_indexes.
  destruct (nth_error (hedge_rows df_h) irow) as [ev |]; [| reflexivity].
  destruct (hedge_time ev); [| reflexivity].
  rewrite H. reflexivity.
Qed.

(** The loop, one iteration after the other. *)
Lemma fold_matched (l : list nat) :
  forall st,
    matched_data_list (fold_left (loop_body df_h df_o t_threshold tick_size) l st)
    = matched_data_list st
      ++ flat_map (event_records df_h df_o t_threshold tick_size) l.
Proof.
  induction l as [| i l IH]; intro st; simpl.
  - rewrite app_nil_r. reflexivity.
  - rewrite IH, loop_body_matched, <- app_assoc. reflexivity.
Qed.

Lemma count_kind_app kind l1 l2 :
  count_kind kind (l1 ++ l2) = (count_kind kind l1 + count_kind kind l2)%nat.
Proof. unfold count_kind. rewrite filter_app, length_app. reflexivity. Qed.

Lemma fold_exact (l : list nat) :
  forall st,
    num_exact_price_matches
      (fold_left (loop_body df_h df_o t_threshold tick_size) l st)
    = (num_exact_price_matches st
       + count_kind exact
           (flat_map (event_records df_h df_o t_threshold tick_size) l))%nat.
Proof.
  induction l as [| i l IH]; intro st; simpl.
  - unfold count_kind. simpl. lia.
  - rewrite IH, loop_body_exact, count_kind_app. lia.
Qed.

Lemma fold_fuzzy (l : list nat) :
  forall st,
    num_fuzzy_price_matches
      (fold_left (loop_body df_h df_o t_threshold tick_size) l st)
    = (num_fuzzy_price_matches st
       + count_kind fuzzy
           (flat_map (event_records df_h df_o t_threshold tick_size) l))%nat.
Proof.
  induction l as [| i l IH]; intro st; simpl.
  - unfold count_kind. simpl. lia.
  - rewrite IH, loop_body_fuzzy, count_kind_app. lia.
Qed.

Lemma fold_attempted (l : list nat) :
  forall st,
    num_input_hedge_fill_events
      (fold_left (loop_body df_h df_o t_threshold tick_size) l st)
    = (num_input_hedge_fill_events st + list_sum (map (attempt_of df_h) l))%nat.
Proof.
  induction l as [| i l IH]; intro st; simpl.
  - lia.
  - rewrite IH, loop_body_attempted. lia.
Qed.

End LoopFacts.

Section RunFacts.

Lemma flat_map_all_nil {A B} (f : A -> list B) (l : list A) :
  (forall x, f x = []) -> flat_map f l = [].
Proof.
  intro H. induction l as [| a l IH]; simpl; [reflexivity |].
  rewrite H, IH. reflexivity.
Qed.

(** Summing over the positions of a list is summing over its elements. *)
Lemma sum_over_positions {A} (g : A -> nat) (l : list A) :
  list_sum (map (fun i => match nth_error l i with
                          | Some x => g x
                          | None => 0%nat
                          end) (seq 0 (List.length l)))
  = list_sum (map g l).
Proof.
  induction l as [| a l IH]; simpl; [reflexivity |].
  rewrite <- seq_shift, map_map. simpl. rewrite IH. reflexivity.
Qed.

Lemma attempts_total (df_h : HedgeFrame) :
  list_sum (map (attempt_of df_h) (seq 0 (List.length (hedge_rows df_h))))
  = List.length (fill_events df_h).
Proof.
  unfold attempt_of.
  rewrite (sum_over_positions (fun ev => if not_a_fill df_h ev then 0 else 1)%nat
                              (hedge_rows df_h)).
  unfold fill_events. induction (hedge_rows df_h) as [| ev l IH]; simpl;
    [reflexivity |].
  destruct (not_a_fill df_h ev); simpl; rewrite IH; reflexivity.
Qed.

Variables (df_h : HedgeFrame) (df_o : LobFrame).
Variables (t_threshold : Z) (tick_size : Q).

Lemma run_loop_matched :
  matched_data_list (run_loop df_h df_o t_threshold tick_size)
  = flat_map (event_records df_h df_o t_threshold tick_size)
             (seq 0 (List.length (hedge_rows df_h))).
Proof. unfold run_loop. rewrite fold_matched. reflexivity. Qed.

Lemma run_loop_attempted :
  num_input_hedge_fill_events (run_loop df_h df_o t_threshold tick_size)
  = List.length (fill_events df_h).
Proof.
  unfold run_loop. rewrite fold_attempted, attempts_total. reflexivity.
Qed.

Lemma run_loop_exact :
  num_exact_price_matches (run_loop df_h df_o t_threshold tick_size)
  = count_kind exact (matched_data_list (run_loop df_h df_o t_threshold tick_size)).
Proof.
  rewrite run_loop_matched. unfold run_loop. rewrite fold_exact. reflexivity.
Qed.

Lemma run_loop_fuzzy :
  num_fuzzy_price_matches (run_loop df_h df_o t_threshold tick_size)
  = count_kind fuzzy (matched_data_list (run_loop df_h df_o t_threshold tick_size)).
Proof.
  rewrite run_loop_matched. unfold run_loop. rewrite fold_fuzzy. reflexivity.
Qed.

(** The frame returned by the engine is the list built by the loop; the
    early returns give the empty frame, which is what the loop would
    have built. *)
Lemma match_hedges_to_lob_records :
  fst (match_hedges_to_lob df_h df_o t_threshold tick_size)
  = flat_map (event_records df_h df_o t_threshold tick_size)
             (seq 0 (List.length (hedge_rows df_h))).
Proof.
  unfold match_hedges_to_lob.
  destruct (hedge_empty df_h) eqn:Eh.
  - unfold hedge_empty in Eh.
    destruct (hedge_rows df_h); [reflexivity | discriminate].
  - destruct (lob_empty df_o) eqn:Eo.
    + simpl. symmetry. apply flat_map_all_nil. intro irow.
      apply event_records_locator_error.
      rewrite (locator_empty_frame df_h df_o t_threshold irow Eo). reflexivity.
    + rewrite <- run_loop_matched.
      destruct (matched_data_list (run_loop df_h df_o t_threshold tick_size));
        reflexivity.
Qed.

End RunFacts.

(* ================================================================== *)
(** * The two passes on one fill event *)

Section EventFacts.

Variables (df_h : HedgeFrame) (df_o : LobFrame).
Variables (t_threshold : Z) (tick_size : Q).

(** The locator answers with the sentinel or with two positions. *)
Lemma locator_result_shape irow :
  fst (find_closest_lob_indexes df_h df_o irow t_threshold) = ((-1)%Z, (-1)%Z) \/
  exists s e : nat,
    fst (find_closest_lob_indexes df_h df_o irow t_threshold)
    = (Z.of_nat s, Z.of_nat e).
Proof.
  unfold find_closest_lob_indexes.
  destruct (nth_error (hedge_rows df_h) irow) as [ev |]; [| left; reflexivity].
  destruct (hedge_time ev); [| left; reflexivity].
  destruct (lob_empty df_o || negb (in_columns "lob_time" df_o));
    [left; reflexivity |].
  right. eexists. eexists. reflexivity.
Qed.

Lemma side_columns_appropriate ev psfx ssfx sign :
  side_columns ev = Some (psfx, ssfx, sign) ->
  side_appropriate ev psfx ssfx sign.
Proof.
  unfold side_columns, side_appropriate.
  destruct (SIDE ev) as [[| [p | p |] | p] |]; try discriminate;
    intro H; inversion H; subst; auto.
  destruct p; try discriminate. inversion H; subst. auto.
Qed.

(** Past the pre-filters the iteration appends what the two passes find. *)
Lemma event_records_search irow ev s e psfx ssfx sign fill price :
  passes_prefilters df_h df_o t_threshold irow ev s e psfx ssfx sign fill price ->
  event_records df_h df_o t_threshold tick_size irow
  = match find_match df_h df_o tick_size ev psfx ssfx sign price fill
                     (iterrows_window df_o s e) with
    | Some rec => [rec]
    | None => []
    end.
Proof.
  intros (Hev & Hfill & Hloc & Hlt & Hside & Hord & Hpos & Hprice).
  unfold event_records, loop_body. rewrite Hev, Hfill.
  destruct (find_closest_lob_indexes df_h df_o irow t_threshold) as [[a b] pr].
  simpl in Hloc. inversion Hloc; subst a b.
  assert (Hgo : ((Z.of_nat s =? -1)%Z || (Z.of_nat e <=? Z.of_nat s)%Z) = false).
  { apply orb_false_iff. split; [apply Z.eqb_neq | apply Z.leb_gt]; lia. }
  rewrite Hgo, Hside, Hord.
  assert (Hq : Qle_bool fill 0 = false) by (apply Qle_bool_false; exact Hpos).
  rewrite Hq, Hprice, !Nat2Z.id.
  destruct (find_match df_h df_o tick_size ev psfx ssfx sign price fill
                       (iterrows_window df_o s e)); reflexivity.
Qed.

(** Conversely, a record can only come from an event that passed the
    pre-filters. *)
Lemma event_records_origin irow rec :
  In rec (event_records df_h df_o t_threshold tick_size irow) ->
  exists ev s e psfx ssfx sign fill price,
    passes_prefilters df_h df_o t_threshold irow ev s e psfx ssfx sign fill price /\
    find_match df_h df_o tick_size ev psfx ssfx sign price fill
               (iterrows_window df_o s e) = Some rec.
Proof.
  unfold event_records, loop_body, passes_prefilters.
  destruct (nth_error (hedge_rows df_h) irow) as [ev |] eqn:Hev; [| intros []].
  destruct (not_a_fill df_h ev) eqn:Hfill; [intros [] |].
  destruct (locator_result_shape irow) as [Hs | (s & e & Hs)];
    destruct (find_closest_lob_indexes df_h df_o irow t_threshold) as [[a b] pr];
    simpl in Hs; inversion Hs; subst a b.
  - simpl. intros [].
  - destruct ((Z.of_nat s =? -1)%Z || (Z.of_nat e <=? Z.of_nat s)%Z) eqn:Hgo;
      [intros [] |].
    apply orb_false_iff in Hgo. destruct Hgo as [_ Hlt]. apply Z.leb_gt in Hlt.
    destruct (side_columns ev) as [[[psfx ssfx] sign] |] eqn:Hside; [| intros []].
    destruct (ord_size_this_fill df_h irow ev) as [fill |] eqn:Hord; [| intros []].
    destruct (Qle_bool fill 0) eqn:Hq; [intros [] |].
    apply Qle_bool_false in Hq.
    destruct (EXEC_PRICE ev) as [price |] eqn:Hprice; [| intros []].
    rewrite !Nat2Z.id.
    destruct (find_match df_h df_o tick_size ev psfx ssfx sign price fill
                         (iterrows_window df_o s e)) as [r |] eqn:Hfind;
      [| intros []].
    simpl. intros [<- | []].
    exists ev, s, e, psfx, ssfx, sign, fill, price.
    repeat split; auto. lia.
Qed.

(** Pass 1 decides the outcome whenever it finds a row. *)
Lemma find_match_exact ev psfx ssfx sign price fill s e rec :
  find_match df_h df_o tick_size ev psfx ssfx sign price fill (iterrows_window df_o s e)
  = Some rec /\ match_type rec = exact <->
  exists n k row,
    first_in_traversal df_o s e (exact_condition df_o psfx ssfx price fill) n k row /\
    rec = match_details df_h exact ev psfx sign price fill n (s + k) row.
Proof.
  unfold find_match.
  pose proof (pass_some df_o psfx ssfx
                (fun pc sc => exact_accept pc sc price fill)
                (exact_condition df_o psfx ssfx price fill)
                (exact_accept_condition df_o psfx ssfx price fill) s e) as Hsome.
  destruct (scan_levels df_o psfx ssfx
              (fun pc sc => exact_accept pc sc price fill)
              (iterrows_window df_o s e) level_range) as [[[n idx] row] |] eqn:E1.
  - destruct (proj1 (Hsome n idx row) eq_refl) as (k & -> & Hfirst).
    split.
    + intros [H _]. inversion H; subst. exists n, k, row. auto.
    + intros (n' & k' & row' & Hfirst' & ->).
      assert (Heq : Some (n, (s + k)%nat, row) = Some (n', (s + k')%nat, row')).
      { apply Hsome. exists k'. auto. }
      inversion Heq; subst. auto.
  - split.
    + intros [H Hk].
      destruct (scan_levels df_o psfx ssfx
                  (fun pc sc => fuzzy_accept tick_size pc sc price fill)
                  (iterrows_window df_o s e) level_range) as [[[n idx] row] |];
        [| discriminate].
      inversion H; subst. discriminate.
    + intros (n & k & row & Hfirst & _).
      assert (Heq : None = Some (n, (s + k)%nat, row)).
      { apply Hsome. exists k. auto. }
      discriminate.
Qed.

(** Pass 2 decides the outcome only when pass 1 found nothing. *)
Lemma find_match_fuzzy ev psfx ssfx sign price fill s e rec :
  find_match df_h df_o tick_size ev psfx ssfx sign price fill (iterrows_window df_o s e)
  = Some rec /\ match_type rec = fuzzy <->
  (forall n k row, (1 <= n <= 10)%nat -> in_window df_o s e k row ->
                   ~ exact_condition df_o psfx ssfx price fill n row) /\
  exists n k row,
    first_in_traversal df_o s e
      (fuzzy_condition df_o tick_size psfx ssfx price fill) n k row /\
    rec = match_details df_h fuzzy ev psfx sign price fill n (s + k) row.
Proof.
  unfold find_match.
  pose proof (pass_none df_o psfx ssfx
                (fun pc sc => exact_accept pc sc price fill)
                (exact_condition df_o psfx ssfx price fill)
                (exact_accept_condition df_o psfx ssfx price fill) s e) as Hnone.
  pose proof (pass_some df_o psfx ssfx
                (fun pc sc => fuzzy_accept tick_size pc sc price fill)
                (fuzzy_condition df_o tick_size psfx ssfx price fill)
                (fuzzy_accept_condition df_o tick_size psfx ssfx price fill) s e)
    as Hsome.
  destruct (scan_levels df_o psfx ssfx
              (fun pc sc => exact_accept pc sc price fill)
              (iterrows_window df_o s e) level_range) as [[[n idx] row] |] eqn:E1.
  - split.
    + intros [H Hk]. inversion H; subst. discriminate.
    + intros [Hno _]. apply Hnone in Hno. discriminate.
  - destruct (scan_levels df_o psfx ssfx
                (fun pc sc => fuzzy_accept tick_size pc sc price fill)
                (iterrows_window df_o s e) level_range) as [[[n idx] row] |] eqn:E2.
    + destruct (proj1 (Hsome n idx row) eq_refl) as (k & -> & Hfirst).
      split.
      * intros [H _]. inversion H; subst. split.
        -- apply Hnone. reflexivity.
        -- exists n, k, row. auto.
      * intros [_ (n' & k' & row' & Hfirst' & ->)].
        assert (Heq : Some (n, (s + k)%nat, row) = Some (n', (s + k')%nat, row')).
        { apply Hsome. exists k'. auto. }
        inversion Heq; subst. auto.
    + split; [intros [H _]; discriminate |].
      intros [_ (n & k & row & Hfirst & _)].
      assert (Heq : None = Some (n, (s + k)%nat, row)).
      { apply Hsome. exists k. auto. }
      discriminate.
Qed.

End EventFacts.

(* ================================================================== *)
(** * Claims on the two passes *)

Section PassClaims.



(** C4.  Every record of the frame returned by the engine refers to a
    level between 1 and 10 of the ask or the bid side at which the
    matched row has a price and a size that are both defined, the size
    being at least the recorded fill size; and a row whose price or size
    is missing at the examined level is accepted by neither pass. *)
Theorem size_sufficiency
        (df_h : HedgeFrame) (df_o : LobFrame) (T : Z) (tick : Q) :
  (forall rec,
      In rec (fst (match_hedges_to_lob df_h df_o T tick)) ->
      exists n psfx ssfx sign,
        (1 <= n <= 10)%nat /\
        ((psfx = "-AskPrice" /\ ssfx = "-AskSize" /\ sign = 1%Z) \/
         (psfx = "-BidPrice" /\ ssfx = "-BidSize" /\ sign = (-1)%Z)) /\
        matched_lob_level_interacted rec = (sign * Z.of_nat n)%Z /\
        (exists p, frame_cell df_o (matched_lob_row rec) (level_col n psfx) = Some p) /\
        size_sufficient df_o ssfx (matched_hedge_this_fill_size rec) n
                        (matched_lob_row rec)) /\
  (forall lob_price_col lob_size_col exec_price fill row,
      lob_cell row lob_price_col = None \/ lob_cell row lob_size_col = None ->
      exact_accept lob_price_col lob_size_col exec_price fill row = false /\
      fuzzy_accept tick lob_price_col lob_size_col exec_price fill row = false).
Proof.
  split.
  - intros rec Hin. rewrite match_hedges_to_lob_records in Hin.
    apply in_flat_map in Hin. destruct Hin as (irow & _ & Hin).
    destruct (event_records_origin df_h df_o T tick irow rec Hin)
      as (ev & s & e & psfx & ssfx & sign & fill & price & Hpre & Hfind).
    assert (Hside : side_appropriate ev psfx ssfx sign).
    { apply side_columns_appropriate. apply Hpre. }
    assert (Hshape :
      (psfx = "-AskPrice" /\ ssfx = "-AskSize" /\ sign = 1%Z) \/
      (psfx = "-BidPrice" /\ ssfx = "-BidSize" /\ sign = (-1)%Z)).
    { destruct Hside as [(_ & H) | (_ & H)]; [left | right]; exact H. }
    destruct (match_type rec) eqn:Hk.
    + destruct (proj1 (find_match_exact df_h df_o tick ev psfx ssfx sign price fill s e rec)
                      (conj Hfind Hk))
        as (n & k & row & (Hn & _ & ((p & Hp & _) & Hsz) & _) & ->).
      exists n, psfx, ssfx, sign. simpl. repeat split; try lia; auto.
      exists p. exact Hp.
    + destruct (proj1 (find_match_fuzzy df_h df_o tick ev psfx ssfx sign price fill s e rec)
                      (conj Hfind Hk))
        as (_ & n & k & row & (Hn & _ & ((p & Hp & _) & Hsz) & _) & ->).
      exists n, psfx, ssfx, sign. simpl. repeat split; try lia; auto.
      exists p. exact Hp.
  - intros pc sc price fill row [H | H]; unfold exact_accept, fuzzy_accept;
      rewrite H.
    + auto.
    + destruct (lob_cell row pc) as [p |]; [| auto].
      destruct (Qltb (Qabs (p - price)) eps),
               (Qle_bool (Qabs (p - price)) (tick + eps)); auto.
Qed.

End PassClaims.


(** Scenario 1: the fill at 100.50 is matched exactly at level 1 with
    the snapshot at 10.2s (position 2); the earlier rows are at another
    price. *)
Example scenario_exact :
  event_records (Sample.fills [Sample.exact_fill]) Sample.book Sample.two_seconds
                Sample.half_tick 0
  = [match_details (Sample.fills [Sample.exact_fill]) exact Sample.exact_fill "-AskPrice" 1 (201 # 2) 5 1 2
                   (Sample.ask_row 10200 (201#2) 10 (101#1) 8)].
Proof. reflexivity. Qed.

(** Scenario 2: the fill at 100.80 has no exact candidate and is matched
    within one tick, at level 1 with the snapshot at 10.2s. *)
Example scenario_fuzzy :
  event_records (Sample.fills [Sample.fuzzy_fill]) Sample.book Sample.two_seconds
                Sample.half_tick 0
  = [match_details (Sample.fills [Sample.fuzzy_fill]) fuzzy Sample.fuzzy_fill "-AskPrice" 1 (504 # 5) 5 1 2
                   (Sample.ask_row 10200 (201#2) 10 (101#1) 8)].
Proof. reflexivity. Qed.

(* ================================================================== *)
(** * Output and counters of a run *)

Section ReportFacts.

Variables (df_h : HedgeFrame) (df_o : LobFrame).
Variables (t_threshold : Z) (tick_size : Q).

(** The locator prints no line of the report. *)
Lemma locator_prints_no_report irow :
  forallb (fun m => negb (is_report_line m))
          (snd (find_closest_lob_indexes df_h df_o irow t_threshold)) = true.
Proof.
  unfold find_closest_lob_indexes.
  destruct (nth_error (hedge_rows df_h) irow) as [ev |]; [| reflexivity].
  destruct (hedge_time ev); [| reflexivity].
  destruct (lob_empty df_o || negb (in_columns "lob_time" df_o)); reflexivity.
Qed.

Lemma loop_body_stdout st irow :
  forallb (fun m => negb (is_report_line m)) (stdout st) = true ->
  forallb (fun m => negb (is_report_line m))
          (stdout (loop_body df_h df_o t_threshold tick_size st irow)) = true.
Proof.
  intro Hst. pose proof (locator_prints_no_report irow) as Hloc.
  unfold loop_body.
  destruct (nth_error (hedge_rows df_h) irow) as [ev |]; [| exact Hst].
  destruct (not_a_fill df_h ev); [exact Hst |].
  destruct (find_closest_lob_indexes df_h df_o irow t_threshold) as [[a b] pr].
  simpl in Hloc.
  assert (Hout : forallb (fun m => negb (is_report_line m)) (stdout st ++ pr) = true).
  { rewrite forallb_app, Hst, Hloc. reflexivity. }
  destruct ((a =? -1)%Z || (b <=? a)%Z); [exact Hout |].
  destruct (side_columns ev) as [[[? ?] ?] |]; [| exact Hout].
  destruct (ord_size_this_fill df_h irow ev) as [q |]; [| exact Hout].
  destruct (Qle_bool q 0); [exact Hout |].
  destruct (EXEC_PRICE ev); [| exact Hout].
  unfold record_match.
  match goal with |- context [find_match ?a ?b ?c ?d ?e ?f ?g ?h ?i ?j] =>
    destruct (find_match a b c d e f g h i j) end; exact Hout.
Qed.

Lemma run_loop_stdout :
  forallb (fun m => negb (is_report_line m))
          (stdout (run_loop df_h df_o t_threshold tick_size)) = true.
Proof.
  unfold run_loop.
  assert (H : forall l st,
             forallb (fun m => negb (is_report_line m)) (stdout st) = true ->
             forallb (fun m => negb (is_report_line m))
                     (stdout (fold_left (loop_body df_h df_o t_threshold tick_size)
                                        l st)) = true).
  { induction l as [| i l IH]; intros st Hst; simpl; [exact Hst |].
    apply IH. apply loop_body_stdout. exact Hst. }
  apply H. reflexivity.
Qed.

(** A row yields a record only if it was counted as attempted. *)
Lemma event_records_le_attempt irow :
  (List.length (event_records df_h df_o t_threshold tick_size irow)
   <= attempt_of df_h irow)%nat.
Proof.
  destruct (event_records_at_most_one df_h df_o t_threshold tick_size irow)
    as [H | [rec H]].
  - rewrite H. simpl. lia.
  - rewrite H. simpl. unfold attempt_of.
    unfold event_records, loop_body in H.
    destruct (nth_error (hedge_rows df_h) irow) as [ev |]; [| discriminate].
    destruct (not_a_fill df_h ev); [discriminate | lia].
Qed.

Lemma matched_le_attempted :
  (List.length (matched_data_list (run_loop df_h df_o t_threshold tick_size))
   <= List.length (fill_events df_h))%nat.
Proof.
  rewrite run_loop_matched, <- attempts_total.
  induction (seq 0 (List.length (hedge_rows df_h))) as [| i l IH]; simpl.
  - lia.
  - rewrite length_app. pose proof (event_records_le_attempt i). lia.
Qed.

(** What the engine prints after the loop. *)
Lemma printed_after_loop :
  let res := match_hedges_to_lob df_h df_o t_threshold tick_size in
  (fst res = [] ->
   forallb (fun m => negb (is_report_line m)) (snd res) = true) /\
  (fst res <> [] ->
   (1 <= List.length (fill_events df_h))%nat /\
   exists before,
     forallb (fun m => negb (is_report_line m)) before = true /\
     snd res = before ++ report_lines tick_size (List.length (fill_events df_h))
                                      (fst res)).
Proof.
  unfold match_hedges_to_lob.
  destruct (hedge_empty df_h); [simpl; split; [reflexivity | congruence] |].
  destruct (lob_empty df_o); [simpl; split; [reflexivity | congruence] |].
  pose proof run_loop_stdout as Hout.
  pose proof matched_le_attempted as Hle.
  pose proof (run_loop_attempted df_h df_o t_threshold tick_size) as Hatt.
  pose proof (run_loop_exact df_h df_o t_threshold tick_size) as Hex.
  pose proof (run_loop_fuzzy df_h df_o t_threshold tick_size) as Hfz.
  destruct (matched_data_list (run_loop df_h df_o t_threshold tick_size))
    as [| r rest] eqn:Hm; simpl.
  - split; [| congruence]. intros _. rewrite forallb_app, Hout. reflexivity.
  - split; [discriminate |]. intros _.
    simpl in Hle. split; [lia |].
    exists (stdout (run_loop df_h df_o t_threshold tick_size)).
    split; [exact Hout |].
    unfold report, report_lines. rewrite Hm, Hatt, Hex, Hfz.
    destruct (Nat.ltb_spec 0 (List.length (fill_events df_h))) as [_ | H0];
      [reflexivity | lia].
Qed.

End ReportFacts.

(* ================================================================== *)
(** * Claims on the pre-filters, the locator errors and the report *)

Section EngineClaims.




End EngineClaims.



Lemma count_kind_total (l : list MatchRecord) :
  (count_kind exact l + count_kind fuzzy l = List.length l)%nat.
Proof.
  unfold count_kind. induction l as [| r l IH]; simpl; [reflexivity |].
  destruct (match_type r); simpl; lia.
Qed.

Section SkipClaims.





(** C8 (amended).  A run that returns at least one record has at least
    one attempt and ends its output with the report: the number of
    attempts, the number of records, the numbers of exact and of fuzzy
    records, and the percentage [matched / attempted * 100], which is
    [100 * matched / attempted]; the exact and fuzzy counts add up to the
    number of records.  A run that returns no record prints no line of
    the report. *)
Theorem report_of_a_run
        (df_h : HedgeFrame) (df_o : LobFrame) (T : Z) (tick : Q) :
  (fst (match_hedges_to_lob df_h df_o T tick) <> [] ->
   (1 <= List.length (fill_events df_h))%nat /\
   (exists before,
       forallb (fun m => negb (is_report_line m)) before = true /\
       snd (match_hedges_to_lob df_h df_o T tick)
       = before ++ report_lines tick (List.length (fill_events df_h))
                                (fst (match_hedges_to_lob df_h df_o T tick))) /\
   (perc_fills_matched
      (List.length (fst (match_hedges_to_lob df_h df_o T tick)))
      (List.length (fill_events df_h))
    == inject_Z 100
       * inject_Z (Z.of_nat (List.length (fst (match_hedges_to_lob df_h df_o T tick))))
       / inject_Z (Z.of_nat (List.length (fill_events df_h))))%Q /\
   (count_kind exact (fst (match_hedges_to_lob df_h df_o T tick))
    + count_kind fuzzy (fst (match_hedges_to_lob df_h df_o T tick))
    = List.length (fst (match_hedges_to_lob df_h df_o T tick)))%nat) /\
  (fst (match_hedges_to_lob df_h df_o T tick) = [] ->
   forall m, In m (snd (match_hedges_to_lob df_h df_o T tick)) ->
             is_report_line m = false).
Proof.
  split.
  - intro Hne.
    destruct (proj2 (printed_after_loop df_h df_o T tick) Hne)
      as (Hatt & before & Hb & Hout).
    split; [exact Hatt |]. split; [exists before; auto |]. split.
    + unfold perc_fills_matched.
      assert (Hnz : ~ (inject_Z (Z.of_nat (List.length (fill_events df_h))) == 0)%Q).
      { unfold Qeq. simpl. lia. }
      field. exact Hnz.
    + apply count_kind_total.
  - intros Hnil m Hin.
    pose proof (proj1 (printed_after_loop df_h df_o T tick) Hnil) as Hall.
    rewrite forallb_forall in Hall. specialize (Hall m Hin).
    apply negb_true_iff in Hall. exact Hall.
Qed.

End SkipClaims.


(** C7.  At the failing input: a fill without a timestamp followed by
    the fill of scenario 1, the sample book, and a threshold of
    9223372030 seconds.  On the first row the locator answers
    [(-1, -1)] with its warning and the row is skipped.  On the second
    row [event_time + T] is past the last timestamp: line 21 raises
    before the [try] of line 27, so the locator raises, and so does the
    engine, which catches nothing: the run is aborted.  With the
    threshold of two seconds the same frames give the record of
    scenario 1. *)
Theorem locator_overflow_aborts_the_run :
  find_closest_lob_indexes Sample.untimed_then_fill Sample.book 0
                           Sample.far_threshold
  = (((-1)%Z, (-1)%Z), [MsgNaTHedgeTime 0]) /\
  event_records Sample.untimed_then_fill Sample.book Sample.far_threshold
                Sample.half_tick 0 = [] /\
  find_closest_lob_indexes_raises Sample.untimed_then_fill Sample.book 0
                                  Sample.far_threshold = false /\
  is_timedelta Sample.far_threshold = true /\
  is_timestamp (Sample.ms 10000 + Sample.far_threshold) = false /\
  find_closest_lob_indexes_raises Sample.untimed_then_fill Sample.book 1
                                  Sample.far_threshold = true /\
  match_hedges_to_lob_raises Sample.untimed_then_fill Sample.book
                             Sample.far_threshold Sample.half_tick = true /\
  match_hedges_to_lob_raises Sample.untimed_then_fill Sample.book
                             Sample.two_seconds Sample.half_tick = false /\
  fst (match_hedges_to_lob Sample.untimed_then_fill Sample.book
                           Sample.two_seconds Sample.half_tick)
  = [Sample.exact_record].
Proof. repeat split; reflexivity. Qed.

(** C8, as stated, fails: a run without an attempt, and a run with one
    attempt and no match, print the banner and the no-match line only;
    no count and no rate is reported. *)
Lemma report_counterexample :
  List.length (fill_events (Sample.fills [Sample.acknowledgement])) = 0%nat /\
  match_hedges_to_lob (Sample.fills [Sample.acknowledgement]) Sample.book
                      Sample.two_seconds Sample.half_tick
  = ([], [MsgThreshold Sample.two_seconds; MsgTickSize Sample.half_tick;
          MsgNoMatches]) /\
  List.length (fill_events (Sample.fills [Sample.sideless_fill])) = 1%nat /\
  match_hedges_to_lob (Sample.fills [Sample.sideless_fill]) Sample.book
                      Sample.two_seconds Sample.half_tick
  = ([], [MsgThreshold Sample.two_seconds; MsgTickSize Sample.half_tick;
          MsgNoMatches]).
Proof. repeat split. Qed.

(** Three fills that are skipped (no timestamp, no valid side, no
    positive size) and one that is matched: four attempts, one match. *)
Example attempts_include_skipped :
  snd (match_hedges_to_lob Sample.skipped_then_fill Sample.book
                           Sample.two_seconds Sample.half_tick)
  = [MsgThreshold Sample.two_seconds; MsgTickSize Sample.half_tick;
     MsgNaTHedgeTime 0;
     MsgReportHeader; MsgAttempted 4; MsgTotalMatched 1; MsgExactMatches 1;
     MsgFuzzyMatches Sample.half_tick 0;
     MsgPercentage (perc_fills_matched 1 4); MsgReportEnd].
Proof. reflexivity. Qed.

(* ================================================================== *)
(** * Properties of the LOB preparation *)

Section PrepareFacts.

Local Open Scope Z_scope.

Lemma time_leb_total a b : time_leb a b = false -> time_leb b a = true.
Proof.
  destruct a as [x |], b as [y |]; simpl; try discriminate; try reflexivity.
  intro H. apply Z.leb_gt in H. apply Z.leb_le. lia.
Qed.

Lemma insert_by_time_perm r rows :
  Permutation (r :: rows) (insert_by_time r rows).
Proof.
  induction rows as [| x rest IH]; simpl.
  - apply Permutation_refl.
  - destruct (time_leb (date_time r) (date_time x)).
    + apply Permutation_refl.
    + apply perm_trans with (x :: r :: rest).
      * apply perm_swap.
      * apply perm_skip. exact IH.
Qed.

Lemma sort_values_perm rows : Permutation rows (sort_values rows).
Proof.
  induction rows as [| r rest IH]; simpl.
  - apply perm_nil.
  - apply perm_trans with (r :: sort_values rest).
    + apply perm_skip. exact IH.
    + apply insert_by_time_perm.
Qed.

Lemma insert_by_time_sorted r rows :
  time_sorted rows -> time_sorted (insert_by_time r rows).
Proof.
  unfold time_sorted.
  induction rows as [| x rest IH]; intro Hs; simpl.
  - repeat constructor.
  - destruct (time_leb (date_time r) (date_time x)) eqn:E.
    + constructor; [exact Hs | constructor; exact E].
    + inversion Hs as [| ? ? Hrest Hhd]; subst.
      constructor; [apply IH; exact Hrest |].
      destruct rest as [| y rest']; simpl.
      * constructor. apply time_leb_total. exact E.
      * destruct (time_leb (date_time r) (date_time y)).
        -- constructor. apply time_leb_total. exact E.
        -- inversion Hhd; subst. constructor. assumption.
Qed.

(** [sort_values] sorts: by time, [NaT] last. *)
Lemma sort_values_sorted rows : time_sorted (sort_values rows).
Proof.
  induction rows as [| r rest IH]; simpl; [constructor |].
  apply insert_by_time_sorted. exact IH.
Qed.

(** The test of pandas holds exactly on a sorted column without [NaT]. *)
Lemma monotonic_iff (rows : list RawLobRow) :
  is_monotonic_increasing (map date_time rows) = true <->
  times_defined rows = true /\ time_sorted rows.
Proof.
  unfold time_sorted.
  induction rows as [| r rest IH].
  - simpl. split; [intros _; split; [reflexivity | constructor] | reflexivity].
  - cbn [map is_monotonic_increasing times_defined forallb].
    destruct (date_time r) as [t |] eqn:Er.
    2:{ split; [discriminate | intros [H _]; discriminate]. }
    destruct rest as [| x rest'].
    + simpl. split; [intros _; split; [reflexivity | repeat constructor] |
                     reflexivity].
    + cbn [map] in *.
      destruct (date_time x) as [u |] eqn:Ex.
      2:{ split; [discriminate |].
          intros [H _]. cbn [forallb] in H. rewrite Ex in H. discriminate. }
      rewrite andb_true_iff, IH. cbn [andb]. split.
      * intros [Hle [Hdef Hs]]. split; [exact Hdef |].
        constructor; [exact Hs |]. constructor. rewrite Er, Ex. exact Hle.
      * intros [Hdef Hs]. inversion Hs as [| ? ? Hs' Hhd]; subst.
        inversion Hhd as [| ? ? Hle]; subst. rewrite Er, Ex in Hle.
        split; [exact Hle |]. split; [exact Hdef | exact Hs'].
Qed.

Lemma times_defined_perm rows rows' :
  Permutation rows rows' -> times_defined rows = true ->
  times_defined rows' = true.
Proof.
  unfold times_defined. intros Hp H.
  apply forallb_forall. intros r Hin.
  rewrite forallb_forall in H. apply H.
  apply (Permutation_in r (Permutation_sym Hp) Hin).
Qed.

(** After [sort_values] a column without [NaT] is monotonic: the test
    that guards the de-duplication does not fire. *)
Lemma sort_values_monotonic rows :
  times_defined rows = true ->
  is_monotonic_increasing (map date_time (sort_values rows)) = true.
Proof.
  intro H. apply monotonic_iff. split.
  - apply (times_defined_perm rows); [apply sort_values_perm | exact H].
  - apply sort_values_sorted.
Qed.

Lemma sort_and_check_defined rows :
  times_defined rows = true -> sort_and_check rows = (sort_values rows, []).
Proof.
  intro H. unfold sort_and_check.
  rewrite (sort_values_monotonic rows H). reflexivity.
Qed.

(** With a [NaT] in the column the test fails on every arrangement of
    the rows. *)
Lemma nat_time_not_monotonic rows :
  times_defined rows = false ->
  is_monotonic_increasing (map date_time rows) = false.
Proof.
  intro H. destruct (is_monotonic_increasing (map date_time rows)) eqn:E;
    [| reflexivity].
  apply monotonic_iff in E. destruct E as [E _]. congruence.
Qed.

Lemma lob_drop_duplicates_In seen rows r :
  In r (Prepare.drop_duplicates_from seen rows) -> In r rows.
Proof.
  revert seen. induction rows as [| x rest IH]; intros seen; simpl; [auto |].
  destruct (existsb (time_eqb (date_time x)) seen).
  - intro H. right. apply (IH seen H).
  - intros [H | H]; [left; exact H | right; apply (IH _ H)].
Qed.

(** Whatever branch is taken, the rows that come out are sorted and were
    among the rows that went in. *)
Lemma sort_and_check_sorted rows : time_sorted (fst (sort_and_check rows)).
Proof.
  unfold sort_and_check.
  destruct (is_monotonic_increasing (map date_time (sort_values rows))) eqn:E1;
    cbn [negb fst].
  - apply sort_values_sorted.
  - destruct (is_monotonic_increasing
                (map date_time (drop_duplicates (sort_values rows)))) eqn:E2;
      cbn [negb fst].
    + apply monotonic_iff in E2. apply E2.
    + destruct (is_monotonic_increasing
                  (map date_time
                       (sort_values (drop_duplicates (sort_values rows)))));
        cbn [negb fst]; apply sort_values_sorted.
Qed.

Lemma sort_and_check_In rows r :
  In r (fst (sort_and_check rows)) -> In r rows.
Proof.
  assert (Hsort : forall l x, In x (sort_values l) -> In x l).
  { intros l x H. apply (Permutation_in x (Permutation_sym (sort_values_perm l)) H). }
  assert (Hdedup : forall l x, In x (drop_duplicates l) -> In x l).
  { intros l x H. apply (lob_drop_duplicates_In [] l x H). }
  unfold sort_and_check.
  destruct (is_monotonic_increasing (map date_time (sort_values rows)));
    cbn [negb fst].
  - apply Hsort.
  - destruct (is_monotonic_increasing
                (map date_time (drop_duplicates (sort_values rows))));
      cbn [negb fst].
    + intro H. apply Hsort, Hdedup, H.
    + destruct (is_monotonic_increasing
                  (map date_time
                       (sort_values (drop_duplicates (sort_values rows)))));
        cbn [negb fst]; intro H; apply Hsort, Hdedup, Hsort, H.
Qed.

(** The rows of the prepared frame, for a frame with the column
    ['Date-Time']. *)
Lemma prepare_rows (df_o : RawLobFrame) (specific_ric : string) :
  in_raw_lob_columns "Date-Time" df_o = true ->
  raw_lob_rows (fst (filter_and_prepare_lob_data df_o specific_ric))
  = fst (sort_and_check (selected_rows df_o specific_ric)).
Proof.
  intro Hcol. unfold filter_and_prepare_lob_data, selected_rows.
  destruct (raw_lob_empty df_o) eqn:Eempty.
  - unfold raw_lob_empty in Eempty. unfold in_raw_lob_columns in Hcol.
    cbn [fst].
    destruct (raw_lob_rows df_o) as [| r rest] eqn:Hrows.
    + destruct (truthy specific_ric
                && in_raw_lob_columns "Alias Underlying RIC" df_o); reflexivity.
    + destruct (raw_lob_columns df_o); discriminate.
  - rewrite Hcol. cbn [negb].
    destruct (truthy specific_ric
              && in_raw_lob_columns "Alias Underlying RIC" df_o).
    + destruct (filter_ric specific_ric (raw_lob_rows df_o)) as [| r rest];
        [reflexivity |].
      destruct (sort_and_check (r :: rest)) as [prepared printed]. reflexivity.
    + destruct (raw_lob_rows df_o) as [| r rest]; [reflexivity |].
      destruct (sort_and_check (r :: rest)) as [prepared printed]. reflexivity.
Qed.

(** Without the column ['Date-Time'] the frame is returned as it is. *)
Lemma prepare_without_date_time (df_o : RawLobFrame) (specific_ric : string) :
  in_raw_lob_columns "Date-Time" df_o = false ->
  fst (filter_and_prepare_lob_data df_o specific_ric) = df_o.
Proof.
  intro Hcol. unfold filter_and_prepare_lob_data.
  destruct (raw_lob_empty df_o); [reflexivity |].
  rewrite Hcol. reflexivity.
Qed.

Lemma selected_rows_In (df_o : RawLobFrame) (specific_ric : string) r :
  In r (selected_rows df_o specific_ric) <->
  In r (raw_lob_rows df_o) /\
  (truthy specific_ric = true ->
   in_raw_lob_columns "Alias Underlying RIC" df_o = true ->
   raw_lob_ric r = specific_ric).
Proof.
  unfold selected_rows, filter_ric.
  destruct (truthy specific_ric); simpl.
  - destruct (in_raw_lob_columns "Alias Underlying RIC" df_o).
    + rewrite filter_In. rewrite String.eqb_eq. split.
      * intros [Hin Hric]. auto.
      * intros [Hin Hric]. auto.
    + split; [intro H; split; [exact H | discriminate] | intros [H _]; exact H].
  - split; [intro H; split; [exact H | discriminate] | intros [H _]; exact H].
Qed.

End PrepareFacts.

Section PrepareClaims.

(** C9.  At the failing input: the raw frame has the snapshots of FFIH4
    at 11.0s, 9.5s and 9.5s (and one of another instrument).  The
    preparation for FFIH4 prints nothing and returns three rows, sorted
    by time, two of them at 9.5s: the column is monotonic after the
    sort, the test of line 83 is false and [drop_duplicates] is not
    reached.  With one more snapshot whose time is [NaT] the test is
    true, and a single row is left at 9.5s. *)
Theorem prepared_lob_keeps_duplicates :
  map date_time
      (raw_lob_rows (fst (filter_and_prepare_lob_data Sample.raw_book "FFIH4")))
  = [Some (Sample.ms 9500); Some (Sample.ms 9500); Some (Sample.ms 11000)] /\
  snd (filter_and_prepare_lob_data Sample.raw_book "FFIH4") = [] /\
  ~ NoDup (map date_time
               (raw_lob_rows
                  (fst (filter_and_prepare_lob_data Sample.raw_book "FFIH4")))) /\
  map date_time
      (raw_lob_rows
         (fst (filter_and_prepare_lob_data Sample.raw_book_with_nat "FFIH4")))
  = [Some (Sample.ms 9500); Some (Sample.ms 11000); None] /\
  snd (filter_and_prepare_lob_data Sample.raw_book_with_nat "FFIH4")
  = [MsgStillNotSorted].
Proof.
  split; [reflexivity |]. split; [reflexivity |].
  split; [| split; reflexivity].
  intro H. inversion H as [| t l Hnotin _]; subst.
  apply Hnotin. left. reflexivity.
Qed.

(** X28.  For a raw frame that has the column ['Date-Time'], the rows of
    the prepared frame are sorted by time, [NaT] last; and when no
    selected row has the time [NaT] they are a permutation of the rows
    that survive the RIC filter, rows that share a timestamp included,
    and the sorting step prints no warning. *)
Theorem prepared_rows_sorted_permutation
        (df_o : RawLobFrame) (specific_ric : string) :
  in_raw_lob_columns "Date-Time" df_o = true ->
  time_sorted (raw_lob_rows (fst (filter_and_prepare_lob_data df_o specific_ric))) /\
  (times_defined (selected_rows df_o specific_ric) = true ->
   Permutation (selected_rows df_o specific_ric)
               (raw_lob_rows (fst (filter_and_prepare_lob_data df_o specific_ric))) /\
   snd (sort_and_check (selected_rows df_o specific_ric)) = []).
Proof.
  intro Hcol. rewrite (prepare_rows df_o specific_ric Hcol). split.
  - apply sort_and_check_sorted.
  - intro Hdef. rewrite (sort_and_check_defined _ Hdef). cbn [fst snd].
    split; [apply sort_values_perm | reflexivity].
Qed.

End PrepareClaims.

Lemma prepared_rows_sorted_permutation_witness :
  time_sorted (raw_lob_rows (fst (filter_and_prepare_lob_data Sample.raw_book "FFIH4"))) /\
  (times_defined (selected_rows Sample.raw_book "FFIH4") = true ->
   Permutation (selected_rows Sample.raw_book "FFIH4")
               (raw_lob_rows (fst (filter_and_prepare_lob_data Sample.raw_book "FFIH4"))) /\
   snd (sort_and_check (selected_rows Sample.raw_book "FFIH4")) = []).
Proof.
  apply (prepared_rows_sorted_permutation Sample.raw_book "FFIH4").
  reflexivity.
Defined.

(* ================================================================== *)
(** * Further properties of the matching engine *)

Section RecordFacts.

Variables (df_h : HedgeFrame) (df_o : LobFrame).
Variables (t_threshold : Z) (tick_size : Q).

(** Every record of the returned frame comes from a row that passed the
    pre-filters and for which the two passes found it. *)
Lemma output_origin rec :
  In rec (fst (match_hedges_to_lob df_h df_o t_threshold tick_size)) ->
  exists irow ev s e psfx ssfx sign fill price,
    passes_prefilters df_h df_o t_threshold irow ev s e psfx ssfx sign fill price /\
    find_match df_h df_o tick_size ev psfx ssfx sign price fill
               (iterrows_window df_o s e) = Some rec.
Proof.
  intro Hin. rewrite match_hedges_to_lob_records in Hin.
  apply in_flat_map in Hin. destruct Hin as (irow & _ & Hin).
  destruct (event_records_origin df_h df_o t_threshold tick_size irow rec Hin)
    as (ev & s & e & psfx & ssfx & sign & fill & price & Hpre & Hfind).
  exists irow, ev, s, e, psfx, ssfx, sign, fill, price. auto.
Qed.

(** The shape of what the two passes return. *)
Lemma find_match_shape ev psfx ssfx sign price fill s e rec :
  find_match df_h df_o tick_size ev psfx ssfx sign price fill
             (iterrows_window df_o s e) = Some rec ->
  exists n k row,
    (1 <= n <= 10)%nat /\ in_window df_o s e k row /\
    rec = match_details df_h (match_type rec) ev psfx sign price fill n (s + k) row /\
    match match_type rec with
    | exact => exact_condition df_o psfx ssfx price fill n row
    | fuzzy => fuzzy_condition df_o tick_size psfx ssfx price fill n row /\
               ~ exact_condition df_o psfx ssfx price fill n row
    end.
Proof.
  intro Hfind. destruct (match_type rec) eqn:Hk.
  - destruct (proj1 (find_match_exact df_h df_o tick_size ev psfx ssfx sign
                                      price fill s e rec) (conj Hfind Hk))
      as (n & k & row & (Hn & Hin & Hc & _) & Heq).
    exists n, k, row.
    split; [exact Hn |]. split; [exact Hin |]. split; [exact Heq | exact Hc].
  - destruct (proj1 (find_match_fuzzy df_h df_o tick_size ev psfx ssfx sign
                                      price fill s e rec) (conj Hfind Hk))
      as (Hno & n & k & row & (Hn & Hin & Hc & _) & Heq).
    exists n, k, row.
    split; [exact Hn |]. split; [exact Hin |]. split; [exact Heq |].
    split; [exact Hc | apply (Hno n k row Hn Hin)].
Qed.

End RecordFacts.

Section LocatorBounds.

Local Open Scope Z_scope.



(** What stands behind an answer of the locator that is not the
    sentinel. *)
Lemma locator_answer df_h df_o irow T (s e : nat) :
  fst (find_closest_lob_indexes df_h df_o irow T) = (Z.of_nat s, Z.of_nat e) ->
  exists ev t,
    nth_error (hedge_rows df_h) irow = Some ev /\
    hedge_time ev = Some t /\
    lob_rows df_o <> [] /\
    s = searchsorted (map lob_time (lob_rows df_o)) (t - one_second) side_left /\
    e = searchsorted (map lob_time (lob_rows df_o)) (t + T) side_right.
Proof.
  unfold find_closest_lob_indexes.
  destruct (nth_error (hedge_rows df_h) irow) as [ev |] eqn:Hev;
    [| simpl; intro H; inversion H; lia].
  destruct (hedge_time ev) as [t |] eqn:Ht; [| simpl; intro H; inversion H; lia].
  destruct (lob_empty df_o) eqn:Eempty; [simpl; intro H; inversion H; lia |].
  destruct (in_columns "lob_time" df_o);
    [| simpl; intro H; inversion H; lia].
  cbv zeta. cbn [fst orb negb]. intro H. injection H as Hs He.
  apply Nat2Z.inj in Hs. apply Nat2Z.inj in He.
  exists ev, t.
  split; [reflexivity |]. split; [exact Ht |]. split; [| split; congruence].
  intro Hnil. unfold lob_empty in Eempty. rewrite Hnil in Eempty. discriminate.
Qed.

(** A frame that gets an answer other than the sentinel passed the
    guard of line 23. *)
Lemma locator_answer_guard df_h df_o irow T (s e : nat) :
  fst (find_closest_lob_indexes df_h df_o irow T) = (Z.of_nat s, Z.of_nat e) ->
  lob_empty df_o || negb (in_columns "lob_time" df_o) = false.
Proof.
  unfold find_closest_lob_indexes.
  destruct (nth_error (hedge_rows df_h) irow) as [ev |];
    [| simpl; intro H; inversion H; lia].
  destruct (hedge_time ev) as [t |]; [| simpl; intro H; inversion H; lia].
  destruct (lob_empty df_o || negb (in_columns "lob_time" df_o));
    [simpl; intro H; inversion H; lia | reflexivity].
Qed.

(** In a sorted frame a position of the answered range holds a snapshot
    of the closed window. *)
Lemma locator_window_times df_h df_o irow T (s e : nat) ev t i row :
  fst (find_closest_lob_indexes df_h df_o irow T) = (Z.of_nat s, Z.of_nat e) ->
  nth_error (hedge_rows df_h) irow = Some ev ->
  hedge_time ev = Some t ->
  Sorted Z.le (map lob_time (lob_rows df_o)) ->
  (s <= i < e)%nat ->
  nth_error (lob_rows df_o) i = Some row ->
  t - one_second <= lob_time row <= t + T.
Proof.
  intros Hloc Hev Ht Hsorted Hi Hrow.
  destruct (locator_answer df_h df_o irow T s e Hloc)
    as (ev' & t' & Hev' & Ht' & _ & Hs & He).
  rewrite Hev in Hev'. inversion Hev'; subst ev'.
  rewrite Ht in Ht'. inversion Ht'; subst t'.
  set (times := map lob_time (lob_rows df_o)) in *.
  assert (Hlen : (i < List.length times)%nat).
  { unfold times. rewrite length_map. apply nth_error_Some. congruence. }
  assert (Hnth : nth i times 0 = lob_time row).
  { apply nth_error_nth. unfold times. rewrite nth_error_map, Hrow. reflexivity. }
  destruct (searchsorted_spec times (t - one_second) side_left Hsorted)
    as (_ & _ & Hs3).
  destruct (searchsorted_spec times (t + T) side_right Hsorted)
    as (_ & He2 & _).
  rewrite <- Hs in Hs3. rewrite <- He in He2.
  specialize (Hs3 i ltac:(lia) Hlen). specialize (He2 i ltac:(lia)).
  simpl in Hs3, He2. rewrite Hnth in Hs3, He2.
  apply Z.ltb_ge in Hs3. apply Z.leb_le in He2. lia.
Qed.

End LocatorBounds.

Section RecordClaims.

(** X2.  Every record of the returned frame points, by
    [original_lob_index], at the snapshot it copies; in a frame sorted by
    time the timestamp of that snapshot lies between one second before
    the time of the fill and the threshold after it, bounds included. *)
Theorem records_point_into_window
        (df_h : HedgeFrame) (df_o : LobFrame) (T : Z) (tick : Q)
        (rec : MatchRecord) :
  In rec (fst (match_hedges_to_lob df_h df_o T tick)) ->
  snapshot_in_window df_o T rec.
Proof.
  intro Hin.
  destruct (output_origin df_h df_o T tick rec Hin)
    as (irow & ev & s & e & psfx & ssfx & sign & fill & price & Hpre & Hfind).
  destruct (find_match_shape df_h df_o tick ev psfx ssfx sign price fill s e rec Hfind)
    as (n & k & row & Hn & [Hk Hrow] & Heq & _).
  destruct Hpre as (Hev & _ & Hloc & _).
  unfold snapshot_in_window. rewrite Heq. simpl. split; [exact Hrow |].
  intro Hsorted.
  destruct (locator_answer df_h df_o irow T s e Hloc) as (ev' & t & Hev' & Ht & _).
  rewrite Hev in Hev'. inversion Hev'; subst ev'.
  exists t. split; [exact Ht |].
  apply (locator_window_times df_h df_o irow T s e ev t (s + k) row); auto. lia.
Qed.

(** X3.  Every record of the returned frame carries the order
    identifier, side, time and execution price of one row of the hedge
    frame and the fill size derived for that row, which is positive; its
    level is positive for a buy and negative for a sell. *)
Theorem records_carry_their_event
        (df_h : HedgeFrame) (df_o : LobFrame) (T : Z) (tick : Q)
        (rec : MatchRecord) :
  In rec (fst (match_hedges_to_lob df_h df_o T tick)) ->
  exists irow ev, record_of_event df_h irow ev rec.
Proof.
  intro Hin.
  destruct (output_origin df_h df_o T tick rec Hin)
    as (irow & ev & s & e & psfx & ssfx & sign & fill & price & Hpre & Hfind).
  destruct (find_match_shape df_h df_o tick ev psfx ssfx sign price fill s e rec Hfind)
    as (n & k & row & Hn & _ & Heq & _).
  assert (Hside : side_appropriate ev psfx ssfx sign).
  { apply side_columns_appropriate. apply Hpre. }
  destruct Hpre as (Hev & _ & _ & _ & _ & Hord & Hpos & Hprice).
  exists irow, ev. unfold record_of_event. rewrite Heq. simpl.
  repeat (split; [assumption || reflexivity |]).
  destruct Hside as [(Hs & _ & _ & ->) | (Hs & _ & _ & ->)]; [left | right];
    split; auto; lia.
Qed.

End RecordClaims.

Lemma records_point_into_window_witness :
  snapshot_in_window Sample.book Sample.two_seconds Sample.exact_record.
Proof.
  apply (records_point_into_window (Sample.fills [Sample.exact_fill]) Sample.book
                                   Sample.two_seconds Sample.half_tick).
  left. reflexivity.
Defined.

Lemma records_carry_their_event_witness :
  exists irow ev,
    record_of_event (Sample.fills [Sample.exact_fill]) irow ev Sample.exact_record.
Proof.
  apply (records_carry_their_event (Sample.fills [Sample.exact_fill]) Sample.book
                                   Sample.two_seconds Sample.half_tick).
  left. reflexivity.
Defined.

Section CandidateFacts.

Variables (df_h : HedgeFrame) (df_o : LobFrame).

(** A fuzzy candidate stays one for a larger tick. *)
Lemma fuzzy_condition_mono tick tick' psfx ssfx price fill n row :
  (tick <= tick')%Q ->
  fuzzy_condition df_o tick psfx ssfx price fill n row ->
  fuzzy_condition df_o tick' psfx ssfx price fill n row.
Proof.
  intros Htick [(p & Hp & Hle) Hsz]. split; [| exact Hsz].
  exists p. split; [exact Hp |].
  apply (Qle_trans _ (tick + eps)); [exact Hle |].
  apply Qplus_le_l. exact Htick.
Qed.

(** Past the pre-filters a row is matched exactly when its window holds
    a candidate of one of the two passes. *)
Lemma records_nonempty_iff T tick irow ev s e psfx ssfx sign fill price :
  passes_prefilters df_h df_o T irow ev s e psfx ssfx sign fill price ->
  event_records df_h df_o T tick irow <> [] <->
  has_candidate df_o s e (exact_condition df_o psfx ssfx price fill) \/
  has_candidate df_o s e (fuzzy_condition df_o tick psfx ssfx price fill).
Proof.
  intro Hpre.
  rewrite (event_records_search df_h df_o T tick irow ev s e psfx ssfx sign
                                fill price Hpre).
  pose proof (pass_none df_o psfx ssfx
                (fun pc sc => exact_accept pc sc price fill)
                (exact_condition df_o psfx ssfx price fill)
                (exact_accept_condition df_o psfx ssfx price fill) s e) as Hex.
  pose proof (pass_none df_o psfx ssfx
                (fun pc sc => fuzzy_accept tick pc sc price fill)
                (fuzzy_condition df_o tick psfx ssfx price fill)
                (fuzzy_accept_condition df_o tick psfx ssfx price fill) s e) as Hfz.
  unfold find_match, has_candidate.
  destruct (scan_levels df_o psfx ssfx
              (fun pc sc => exact_accept pc sc price fill)
              (iterrows_window df_o s e) level_range) as [[[n idx] row] |] eqn:E1.
  - split; [| intros _; discriminate]. intros _. left.
    destruct (proj1 (pass_some df_o psfx ssfx _ _
                       (exact_accept_condition df_o psfx ssfx price fill) s e
                       n idx row) E1) as (k & _ & Hn & Hw & Hc & _).
    exists n, k, row. auto.
  - destruct (scan_levels df_o psfx ssfx
                (fun pc sc => fuzzy_accept tick pc sc price fill)
                (iterrows_window df_o s e) level_range) as [[[n idx] row] |] eqn:E2.
    + split; [| intros _; discriminate]. intros _. right.
      destruct (proj1 (pass_some df_o psfx ssfx _ _
                         (fuzzy_accept_condition df_o tick psfx ssfx price fill)
                         s e n idx row) E2) as (k & _ & Hn & Hw & Hc & _).
      exists n, k, row. auto.
    + split; [intro H; exfalso; apply H; reflexivity |].
      intros [(n & k & row & Hn & Hw & Hc) | (n & k & row & Hn & Hw & Hc)];
        exfalso.
      * apply (proj1 Hex eq_refl n k row Hn Hw Hc).
      * apply (proj1 Hfz eq_refl n k row Hn Hw Hc).
Qed.

End CandidateFacts.

Section WindowFacts.

Local Open Scope Z_scope.

(** In a sorted frame the end of the window moves right, and its start
    stays, when the threshold grows. *)
Lemma locator_end_mono df_h df_o irow T T' (s e : nat) :
  Sorted Z.le (map lob_time (lob_rows df_o)) ->
  T <= T' ->
  fst (find_closest_lob_indexes df_h df_o irow T) = (Z.of_nat s, Z.of_nat e) ->
  exists e' : nat,
    fst (find_closest_lob_indexes df_h df_o irow T') = (Z.of_nat s, Z.of_nat e') /\
    (e <= e')%nat.
Proof.
  intros Hsorted HT Hloc.
  destruct (locator_answer df_h df_o irow T s e Hloc)
    as (ev & t & Hev & Ht & Hne & Hs & He).
  set (times := map lob_time (lob_rows df_o)) in *.
  exists (searchsorted times (t + T') side_right). split.
  - unfold find_closest_lob_indexes. rewrite Hev, Ht.
    rewrite (locator_answer_guard df_h df_o irow T s e Hloc).
    cbv zeta. cbn [fst]. fold times. rewrite <- Hs. reflexivity.
  - destruct (searchsorted_spec times (t + T) side_right Hsorted) as (He1 & He2 & _).
    destruct (searchsorted_spec times (t + T') side_right Hsorted) as (_ & _ & He3').
    rewrite <- He in He1, He2.
    set (e' := searchsorted times (t + T') side_right) in *.
    destruct (Nat.le_gt_cases e e') as [Hle | Hgt]; [exact Hle | exfalso].
    specialize (He2 e' Hgt). specialize (He3' e' (Nat.le_refl _) ltac:(lia)).
    simpl in He2, He3'. apply Z.leb_le in He2. apply Z.leb_gt in He3'. lia.
Qed.

(** In a sorted frame, with a threshold of at least minus one second,
    the answered range is not inverted. *)
Lemma locator_start_le_end df_h df_o irow T (s e : nat) :
  Sorted Z.le (map lob_time (lob_rows df_o)) ->
  - one_second <= T ->
  fst (find_closest_lob_indexes df_h df_o irow T) = (Z.of_nat s, Z.of_nat e) ->
  (s <= e)%nat.
Proof.
  intros Hsorted HT Hloc.
  destruct (locator_answer df_h df_o irow T s e Hloc)
    as (ev & t & Hev & Ht & Hne & Hs & He).
  set (times := map lob_time (lob_rows df_o)) in *.
  destruct (searchsorted_spec times (t - one_second) side_left Hsorted)
    as (Hs1 & Hs2 & _).
  destruct (searchsorted_spec times (t + T) side_right Hsorted) as (_ & _ & He3).
  rewrite <- Hs in Hs1, Hs2. rewrite <- He in He3.
  destruct (Nat.le_gt_cases s e) as [Hle | Hgt]; [exact Hle | exfalso].
  specialize (Hs2 e Hgt). specialize (He3 e (Nat.le_refl _) ltac:(lia)).
  simpl in Hs2, He3. apply Z.ltb_lt in Hs2. apply Z.leb_gt in He3. lia.
Qed.

End WindowFacts.

Section MoreEngineClaims.

(** X4.  The returned frame holds at most one record per attempted
    row: its length is at most the number of attempts, which is at most
    the number of rows of the hedge frame, so the percentage
    [matched / attempted * 100] lies between 0 and 100. *)
Theorem match_rate_bounds
        (df_h : HedgeFrame) (df_o : LobFrame) (T : Z) (tick : Q) :
  (List.length (fst (match_hedges_to_lob df_h df_o T tick))
   <= List.length (fill_events df_h))%nat /\
  (List.length (fill_events df_h) <= List.length (hedge_rows df_h))%nat /\
  (0 <= perc_fills_matched
          (List.length (fst (match_hedges_to_lob df_h df_o T tick)))
          (List.length (fill_events df_h)) <= 100)%Q.
Proof.
  assert (Hle : (List.length (fst (match_hedges_to_lob df_h df_o T tick))
                 <= List.length (fill_events df_h))%nat).
  { rewrite match_hedges_to_lob_records, <- run_loop_matched.
    apply matched_le_attempted. }
  split; [exact Hle |]. split.
  - unfold fill_events. apply filter_length_le.
  - revert Hle.
    generalize (List.length (fst (match_hedges_to_lob df_h df_o T tick))) as m.
    generalize (List.length (fill_events df_h)) as a.
    intros a m Hle. unfold perc_fills_matched.
    destruct a as [| a].
    + assert (m = 0)%nat by lia. subst m. split; discriminate.
    + unfold Qle, Qdiv, Qmult, Qinv. simpl. split; nia.
Qed.

(** X6.  A row that is matched with some tick size is matched with
    every larger tick size. *)
Theorem matching_monotone_in_tick
        (df_h : HedgeFrame) (df_o : LobFrame) (T : Z) (tick tick' : Q)
        (irow : nat) :
  (tick <= tick')%Q ->
  event_records df_h df_o T tick irow <> [] ->
  event_records df_h df_o T tick' irow <> [].
Proof.
  intros Htick Hne.
  destruct (event_records df_h df_o T tick irow) as [| rec l] eqn:E;
    [contradiction |].
  assert (Hin : In rec (event_records df_h df_o T tick irow))
    by (rewrite E; left; reflexivity).
  destruct (event_records_origin df_h df_o T tick irow rec Hin)
    as (ev & s & e & psfx & ssfx & sign & fill & price & Hpre & _).
  apply (records_nonempty_iff df_h df_o T tick' irow ev s e psfx ssfx sign
                              fill price Hpre).
  assert (Hne' : event_records df_h df_o T tick irow <> [])
    by (rewrite E; discriminate).
  apply (records_nonempty_iff df_h df_o T tick irow ev s e psfx ssfx sign
                              fill price Hpre) in Hne'.
  destruct Hne' as [Hex | (n & k & row & Hn & Hw & Hc)]; [left; exact Hex | right].
  exists n, k, row. split; [exact Hn |]. split; [exact Hw |].
  apply (fuzzy_condition_mono df_o tick tick' psfx ssfx price fill n row Htick Hc).
Qed.

(** X7.  An exact record does not depend on the tick size: the row
    yields the same record for every other tick size. *)
Theorem exact_match_independent_of_tick
        (df_h : HedgeFrame) (df_o : LobFrame) (T : Z) (tick tick' : Q)
        (irow : nat) (rec : MatchRecord) :
  event_records df_h df_o T tick irow = [rec] ->
  match_type rec = exact ->
  event_records df_h df_o T tick' irow = [rec].
Proof.
  intros Hrec Hk.
  assert (Hin : In rec (event_records df_h df_o T tick irow))
    by (rewrite Hrec; left; reflexivity).
  destruct (event_records_origin df_h df_o T tick irow rec Hin)
    as (ev & s & e & psfx & ssfx & sign & fill & price & Hpre & Hfind).
  rewrite (event_records_search df_h df_o T tick' irow ev s e psfx ssfx sign
                                fill price Hpre).
  assert (H' : find_match df_h df_o tick' ev psfx ssfx sign price fill
                          (iterrows_window df_o s e) = Some rec /\
               match_type rec = exact).
  { apply find_match_exact.
    apply (find_match_exact df_h df_o tick ev psfx ssfx sign price fill s e rec).
    auto. }
  destruct H' as [-> _]. reflexivity.
Qed.


(** X9.  On a frame sorted by time and with a threshold of at least
    minus one second, the answered range is never inverted:
    [start <= end]. *)
Theorem window_well_formed
        (df_h : HedgeFrame) (df_o : LobFrame) (irow : nat) (T : Z) (s e : nat) :
  Sorted Z.le (map lob_time (lob_rows df_o)) ->
  (- one_second <= T)%Z ->
  fst (find_closest_lob_indexes df_h df_o irow T) = (Z.of_nat s, Z.of_nat e) ->
  (s <= e)%nat.
Proof. apply locator_start_le_end. Qed.

(** X10.  On a frame sorted by time, and for two thresholds with which
    the window of the row is representable, the window of the larger
    threshold contains the window of the smaller one: the locator does
    not raise with the larger one, the start is the same and every
    position of the smaller range is in the larger. *)
Theorem window_grows_with_threshold
        (df_h : HedgeFrame) (df_o : LobFrame) (irow : nat) (T T' : Z)
        (s e : nat) :
  Sorted Z.le (map lob_time (lob_rows df_o)) ->
  (T <= T')%Z ->
  row_window_in_range df_h irow T = true ->
  row_window_in_range df_h irow T' = true ->
  fst (find_closest_lob_indexes df_h df_o irow T) = (Z.of_nat s, Z.of_nat e) ->
  find_closest_lob_indexes_raises df_h df_o irow T' = false /\
  exists e' : nat,
    fst (find_closest_lob_indexes df_h df_o irow T') = (Z.of_nat s, Z.of_nat e') /\
    forall i, (s <= i < e)%nat -> (s <= i < e')%nat.
Proof.
  intros Hsorted HT _ Hrange' Hloc. split.
  { apply row_window_in_range_no_raise. exact Hrange'. }
  destruct (locator_end_mono df_h df_o irow T T' s e Hsorted HT Hloc)
    as (e' & Hloc' & Hle).
  exists e'. split; [exact Hloc' |]. intros i Hi. lia.
Qed.

(** X11.  On a frame sorted by time, and for two thresholds with which
    the window of the row is representable, a row that is matched with
    the smaller threshold is matched with the larger: the locator does
    not raise on it and its iteration appends a record. *)
Theorem matching_monotone_in_threshold
        (df_h : HedgeFrame) (df_o : LobFrame) (T T' : Z) (tick : Q) (irow : nat) :
  Sorted Z.le (map lob_time (lob_rows df_o)) ->
  (T <= T')%Z ->
  row_window_in_range df_h irow T = true ->
  row_window_in_range df_h irow T' = true ->
  event_records df_h df_o T tick irow <> [] ->
  find_closest_lob_indexes_raises df_h df_o irow T' = false /\
  event_records df_h df_o T' tick irow <> [].
Proof.
  intros Hsorted HT _ Hrange' Hne. split.
  { apply row_window_in_range_no_raise. exact Hrange'. }
  destruct (event_records df_h df_o T tick irow) as [| rec l] eqn:E;
    [contradiction |].
  assert (Hin : In rec (event_records df_h df_o T tick irow))
    by (rewrite E; left; reflexivity).
  destruct (event_records_origin df_h df_o T tick irow rec Hin)
    as (ev & s & e & psfx & ssfx & sign & fill & price & Hpre & _).
  assert (Hne' : event_records df_h df_o T tick irow <> [])
    by (rewrite E; discriminate).
  apply (records_nonempty_iff df_h df_o T tick irow ev s e psfx ssfx sign
                              fill price Hpre) in Hne'.
  destruct Hpre as (Hev & Hfill & Hloc & Hlt & Hside & Hord & Hpos & Hprice).
  destruct (locator_end_mono df_h df_o irow T T' s e Hsorted HT Hloc)
    as (e' & Hloc' & Hle).
  assert (Hpre' : passes_prefilters df_h df_o T' irow ev s e' psfx ssfx sign
                                    fill price).
  { unfold passes_prefilters. repeat split; auto. lia. }
  apply (records_nonempty_iff df_h df_o T' tick irow ev s e' psfx ssfx sign
                              fill price Hpre').
  assert (Hwin : forall k row, in_window df_o s e k row -> in_window df_o s e' k row).
  { intros k row [Hk Hrow]. split; [lia | exact Hrow]. }
  destruct Hne' as [(n & k & row & Hn & Hw & Hc) | (n & k & row & Hn & Hw & Hc)];
    [left | right]; exists n, k, row; auto.
Qed.

End MoreEngineClaims.

Lemma sample_book_sorted : Sorted Z.le (map lob_time (lob_rows Sample.book)).
Proof. simpl. repeat constructor; vm_compute; discriminate. Qed.

Lemma matching_monotone_in_tick_witness :
  event_records (Sample.fills [Sample.fuzzy_fill]) Sample.book Sample.two_seconds
                1 0 <> [].
Proof.
  apply (matching_monotone_in_tick
           (Sample.fills [Sample.fuzzy_fill]) Sample.book Sample.two_seconds
           Sample.half_tick 1 0).
  - discriminate.
  - discriminate.
Defined.

Lemma exact_match_independent_of_tick_witness :
  event_records (Sample.fills [Sample.exact_fill]) Sample.book Sample.two_seconds
                0 0 = [Sample.exact_record].
Proof.
  apply (exact_match_independent_of_tick
           (Sample.fills [Sample.exact_fill]) Sample.book Sample.two_seconds
           Sample.half_tick 0 0 Sample.exact_record).
  - reflexivity.
  - reflexivity.
Defined.

Lemma window_well_formed_witness : (0 <= 5)%nat.
Proof.
  apply (window_well_formed (Sample.fills [Sample.exact_fill]) Sample.book 0
                            Sample.two_seconds 0 5 sample_book_sorted).
  - discriminate.
  - reflexivity.
Defined.

Lemma window_grows_with_threshold_witness :
  find_closest_lob_indexes_raises (Sample.fills [Sample.exact_fill]) Sample.book 0
                                  (3 * one_second) = false /\
  exists e' : nat,
    fst (find_closest_lob_indexes (Sample.fills [Sample.exact_fill]) Sample.book 0
                                  (3 * one_second))
    = (Z.of_nat 0, Z.of_nat e') /\
    forall i, (0 <= i < 5)%nat -> (0 <= i < e')%nat.
Proof.
  apply (window_grows_with_threshold
           (Sample.fills [Sample.exact_fill]) Sample.book 0
           Sample.two_seconds (3 * one_second) 0 5 sample_book_sorted).
  - discriminate.
  - reflexivity.
  - reflexivity.
  - reflexivity.
Defined.

Lemma matching_monotone_in_threshold_witness :
  find_closest_lob_indexes_raises (Sample.fills [Sample.exact_fill]) Sample.book 0
                                  (3 * one_second) = false /\
  event_records (Sample.fills [Sample.exact_fill]) Sample.book (3 * one_second)
                Sample.half_tick 0 <> [].
Proof.
  apply (matching_monotone_in_threshold
           (Sample.fills [Sample.exact_fill]) Sample.book
           Sample.two_seconds (3 * one_second) Sample.half_tick 0
           sample_book_sorted).
  - discriminate.
  - reflexivity.
  - reflexivity.
  - discriminate.
Defined.

Section RowOrder.

(** Concatenating the outputs of a function that yields at most one
    element per position keeps the order of the positions. *)
Lemma flat_map_positions {B} (f : nat -> list B) :
  (forall i, f i = [] \/ exists b, f i = [b]) ->
  forall len a,
  exists idxs : list nat,
    Sorted lt idxs /\
    Forall (fun i => a <= i < a + len) idxs /\
    Forall2 (fun i b => f i = [b]) idxs (flat_map f (seq a len)) /\
    (forall i, a <= i < a + len -> ~ In i idxs -> f i = []).
Proof.
  intro Hone. induction len as [| len IH]; intro a.
  - exists []. simpl. repeat split; try constructor. intros i Hi. lia.
  - destruct (IH (S a)) as (idxs & Hs & Hr & Hf & Hno).
    simpl. destruct (Hone a) as [Ha | [b Ha]]; rewrite Ha; simpl.
    + exists idxs. split; [exact Hs |]. split; [| split; [exact Hf |]].
      * eapply Forall_impl; [| exact Hr]. simpl. intros i Hi. lia.
      * intros i Hi Hnot. destruct (Nat.eq_dec i a) as [-> | Hne]; [exact Ha |].
        apply Hno; [lia | exact Hnot].
    + exists (a :: idxs). split; [| split; [| split]].
      * constructor; [exact Hs |].
        destruct idxs as [| j rest]; constructor.
        inversion Hr; subst. lia.
      * constructor; [lia |].
        eapply Forall_impl; [| exact Hr]. simpl. intros i Hi. lia.
      * constructor; [exact Ha | exact Hf].
      * intros i Hi Hnot. apply Hno.
        -- destruct (Nat.eq_dec i a) as [-> | Hne]; [| lia].
           exfalso. apply Hnot. left. reflexivity.
        -- intro Hin. apply Hnot. right. exact Hin.
Qed.

(** X12.  The records of the returned frame are those of a strictly
    increasing sequence of rows of the hedge frame, one record per row
    of the sequence and in that order; every other row yields no record. *)
Theorem records_follow_row_order
        (df_h : HedgeFrame) (df_o : LobFrame) (T : Z) (tick : Q) :
  exists idxs : list nat,
    Sorted lt idxs /\
    Forall (fun i => i < List.length (hedge_rows df_h)) idxs /\
    Forall2 (fun i rec => event_records df_h df_o T tick i = [rec])
            idxs (fst (match_hedges_to_lob df_h df_o T tick)) /\
    (forall i, ~ In i idxs -> event_records df_h df_o T tick i = []).
Proof.
  rewrite match_hedges_to_lob_records.
  destruct (flat_map_positions (event_records df_h df_o T tick)
              (event_records_at_most_one df_h df_o T tick)
              (List.length (hedge_rows df_h)) 0)
    as (idxs & Hs & Hr & Hf & Hno).
  exists idxs. split; [exact Hs |]. split; [| split; [exact Hf |]].
  - eapply Forall_impl; [| exact Hr]. simpl. intros i Hi. lia.
  - intros i Hnot.
    destruct (Nat.lt_ge_cases i (List.length (hedge_rows df_h))) as [Hlt | Hge].
    + apply Hno; [lia | exact Hnot].
    + unfold event_records, loop_body.
      apply nth_error_None in Hge. rewrite Hge. reflexivity.
Qed.

End RowOrder.

(* ================================================================== *)
(** * Tick size and prepared frames *)

Section TickFacts.

Lemma substring_two_app (s t : string) :
  (2 <= String.length s)%nat ->
  substring 0 2 (s ++ t) = substring 0 2 s.
Proof.
  assert (H0 : forall u, substring 0 0 u = EmptyString)
    by (intro u; destruct u; reflexivity).
  destruct s as [| a [| b s']]; simpl; intro H; try lia.
  rewrite !H0. reflexivity.
Qed.

(** X13.  The tick size of an instrument is one quarter when its RIC
    starts with ES or NQ and one half otherwise, hence always positive;
    the warning is printed exactly when the first two characters are
    none of FF, ES and NQ; and nothing past the first two characters of
    the RIC matters. *)
Theorem tick_size_by_prefix (ric_code : string) :
  (0 < fst (get_tick_size_for_ric ric_code))%Q /\
  (fst (get_tick_size_for_ric ric_code)
   = if String.eqb (ric_prefix_of ric_code) "ES"
        || String.eqb (ric_prefix_of ric_code) "NQ"
     then (1 # 4)%Q else (1 # 2)%Q) /\
  (snd (get_tick_size_for_ric ric_code) = [] <->
   ric_prefix_of ric_code = "FF" \/ ric_prefix_of ric_code = "ES" \/
   ric_prefix_of ric_code = "NQ") /\
  (forall rest, (2 <= String.length ric_code)%nat ->
                get_tick_size_for_ric (ric_code ++ rest)
                = get_tick_size_for_ric ric_code).
Proof.
  unfold get_tick_size_for_ric. split; [| split; [| split]].
  - destruct (String.eqb (ric_prefix_of ric_code) "FF");
      [reflexivity |].
    destruct (String.eqb (ric_prefix_of ric_code) "ES"); [reflexivity |].
    destruct (String.eqb (ric_prefix_of ric_code) "NQ"); reflexivity.
  - destruct (String.eqb_spec (ric_prefix_of ric_code) "FF") as [-> | _];
      [reflexivity |].
    destruct (String.eqb (ric_prefix_of ric_code) "ES"); [reflexivity |].
    destruct (String.eqb (ric_prefix_of ric_code) "NQ"); reflexivity.
  - destruct (String.eqb_spec (ric_prefix_of ric_code) "FF") as [-> | Hff].
    { simpl. split; auto. }
    destruct (String.eqb_spec (ric_prefix_of ric_code) "ES") as [-> | Hes].
    { simpl. split; auto. }
    destruct (String.eqb_spec (ric_prefix_of ric_code) "NQ") as [-> | Hnq].
    { simpl. split; auto. }
    simpl. split; [discriminate |]. intros [H | [H | H]]; contradiction.
  - intros rest Hlen. unfold ric_prefix_of.
    rewrite (substring_two_app ric_code rest Hlen). reflexivity.
Qed.

End TickFacts.

Section PreparedFrames.

Local Open Scope Z_scope.

Lemma timed_row_fields r x :
  timed_row r = Some x ->
  date_time r = Some (lob_time x) /\ lob_ric x = raw_lob_ric r.
Proof.
  unfold timed_row. destruct (date_time r) as [t |]; [| discriminate].
  intro H. inversion H; subst. split; reflexivity.
Qed.

Lemma timed_rows_cons r rest l :
  timed_rows (r :: rest) = Some l ->
  exists x l', l = x :: l' /\ timed_row r = Some x /\ timed_rows rest = Some l'.
Proof.
  cbn [timed_rows].
  destruct (timed_row r) as [x |]; [| discriminate].
  destruct (timed_rows rest) as [l' |]; [| discriminate].
  intro H. inversion H; subst. exists x, l'. auto.
Qed.

(** A row of the frame that the engine reads is a row of the prepared
    frame. *)
Lemma timed_rows_In rows :
  forall l x, timed_rows rows = Some l -> In x l ->
              exists r, In r rows /\ timed_row r = Some x.
Proof.
  induction rows as [| r rest IH]; intros l x Hl Hin.
  - simpl in Hl. inversion Hl; subst. contradiction.
  - destruct (timed_rows_cons r rest l Hl) as (y & l' & -> & Hr & Hrest).
    destruct Hin as [<- | Hin].
    + exists r. split; [left; reflexivity | exact Hr].
    + destruct (IH l' x Hrest Hin) as (r' & Hin' & Hr').
      exists r'. split; [right; exact Hin' | exact Hr'].
Qed.

(** Rows sorted by time, none of them [NaT], are sorted for [<=]. *)
Lemma timed_rows_sorted rows :
  forall l, timed_rows rows = Some l -> time_sorted rows ->
            Sorted Z.le (map lob_time l).
Proof.
  unfold time_sorted.
  induction rows as [| r rest IH]; intros l Hl Hs.
  - simpl in Hl. inversion Hl; subst. constructor.
  - destruct (timed_rows_cons r rest l Hl) as (x & l' & -> & Hr & Hrest).
    inversion Hs as [| ? ? Hs' Hhd]; subst.
    cbn [map]. constructor; [apply (IH l' Hrest Hs') |].
    destruct rest as [| r2 rest'].
    + simpl in Hrest. inversion Hrest; subst. constructor.
    + destruct (timed_rows_cons r2 rest' l' Hrest) as (x2 & l2 & -> & Hr2 & _).
      cbn [map]. constructor.
      inversion Hhd as [| ? ? Hle]; subst.
      destruct (timed_row_fields r x Hr) as [Ht _].
      destruct (timed_row_fields r2 x2 Hr2) as [Ht2 _].
      rewrite Ht, Ht2 in Hle. apply Z.leb_le. exact Hle.
Qed.

Lemma rename_has_lob_time cols :
  existsb (String.eqb "Date-Time") cols = true ->
  existsb (String.eqb "lob_time") (rename_time_column cols) = true.
Proof.
  unfold rename_time_column.
  induction cols as [| c rest IH]; [discriminate |].
  cbn [existsb map]. intro H. apply orb_true_iff in H. apply orb_true_iff.
  destruct H as [H | H].
  - left. apply String.eqb_eq in H. subst c. reflexivity.
  - right. apply IH. exact H.
Qed.

(** A prepared frame that has rows has its time column renamed. *)
Lemma prepare_columns (df_o : RawLobFrame) (specific_ric : string) :
  in_raw_lob_columns "Date-Time" df_o = true ->
  raw_lob_rows (fst (filter_and_prepare_lob_data df_o specific_ric)) <> [] ->
  existsb (String.eqb "lob_time")
          (raw_lob_columns (fst (filter_and_prepare_lob_data df_o specific_ric)))
  = true.
Proof.
  intros Hcol. unfold filter_and_prepare_lob_data.
  destruct (raw_lob_empty df_o) eqn:Eempty.
  - unfold raw_lob_empty in Eempty. unfold in_raw_lob_columns in Hcol.
    cbn [fst].
    destruct (raw_lob_rows df_o) as [| r rest] eqn:Hrows; [congruence |].
    destruct (raw_lob_columns df_o); discriminate.
  - rewrite Hcol. cbn [negb].
    destruct (if truthy specific_ric
                 && in_raw_lob_columns "Alias Underlying RIC" df_o
              then filter_ric specific_ric (raw_lob_rows df_o)
              else raw_lob_rows df_o) as [| r rest]; [simpl; congruence |].
    destruct (sort_and_check (r :: rest)) as [prepared printed].
    cbn [fst raw_lob_columns]. intros _.
    apply rename_has_lob_time. exact Hcol.
Qed.

(** What is known of the frame that the engine reads after the
    preparation: it is sorted, it has the column [lob_time] when it has
    rows, and its rows come from the selected rows of the raw frame. *)
Lemma prepared_frame_facts (raw : RawLobFrame) (specific_ric : string)
      (prepared : LobFrame) :
  in_raw_lob_columns "Date-Time" raw = true ->
  lob_frame_of (fst (filter_and_prepare_lob_data raw specific_ric)) = Some prepared ->
  Sorted Z.le (map lob_time (lob_rows prepared)) /\
  (lob_rows prepared <> [] -> in_columns "lob_time" prepared = true) /\
  (forall x, In x (lob_rows prepared) ->
             exists r, In r (selected_rows raw specific_ric) /\
                       timed_row r = Some x).
Proof.
  intros Hcol Hframe. unfold lob_frame_of in Hframe.
  destruct (timed_rows (raw_lob_rows
                          (fst (filter_and_prepare_lob_data raw specific_ric))))
    as [l |] eqn:Hl; [| discriminate].
  inversion Hframe; subst prepared. cbn [lob_rows lob_columns].
  split; [| split].
  - apply (timed_rows_sorted _ l Hl).
    rewrite (prepare_rows raw specific_ric Hcol). apply sort_and_check_sorted.
  - intro Hne. unfold in_columns. cbn [lob_columns].
    apply prepare_columns; [exact Hcol |].
    intro Hnil. rewrite Hnil in Hl. simpl in Hl. inversion Hl; subst.
    apply Hne. reflexivity.
  - intros x Hx. destruct (timed_rows_In _ l x Hl Hx) as (r & Hin & Hr).
    exists r. split; [| exact Hr].
    rewrite (prepare_rows raw specific_ric Hcol) in Hin.
    apply sort_and_check_In. exact Hin.
Qed.

(** X14.  For a raw frame that has the column ['Date-Time']: every row
    of the prepared frame is a row of the raw frame and, when a RIC is
    requested and the frame has the RIC column, carries that RIC; and
    when no selected row has the time [NaT], a row of the raw frame with
    that RIC is in the prepared frame: the preparation then neither
    invents nor loses a row. *)
Theorem prepared_rows_membership
        (df_o : RawLobFrame) (specific_ric : string) (r : RawLobRow) :
  in_raw_lob_columns "Date-Time" df_o = true ->
  (In r (raw_lob_rows (fst (filter_and_prepare_lob_data df_o specific_ric))) ->
   In r (raw_lob_rows df_o) /\
   (truthy specific_ric = true ->
    in_raw_lob_columns "Alias Underlying RIC" df_o = true ->
    raw_lob_ric r = specific_ric)) /\
  (times_defined (selected_rows df_o specific_ric) = true ->
   In r (raw_lob_rows df_o) ->
   (truthy specific_ric = true ->
    in_raw_lob_columns "Alias Underlying RIC" df_o = true ->
    raw_lob_ric r = specific_ric) ->
   In r (raw_lob_rows (fst (filter_and_prepare_lob_data df_o specific_ric)))).
Proof.
  intro Hcol. rewrite (prepare_rows df_o specific_ric Hcol). split.
  - intro Hin. apply selected_rows_In. apply sort_and_check_In. exact Hin.
  - intros Hdef Hin Hric.
    rewrite (sort_and_check_defined _ Hdef). cbn [fst].
    apply (Permutation_in r (sort_values_perm _)).
    apply selected_rows_In. split; assumption.
Qed.

(** The range answered on a sorted frame holds exactly the snapshots of
    the closed window. *)
Lemma locator_range_iff df_h df_o irow T (s e : nat) ev t i row :
  fst (find_closest_lob_indexes df_h df_o irow T) = (Z.of_nat s, Z.of_nat e) ->
  nth_error (hedge_rows df_h) irow = Some ev ->
  hedge_time ev = Some t ->
  Sorted Z.le (map lob_time (lob_rows df_o)) ->
  nth_error (lob_rows df_o) i = Some row ->
  (s <= i < e)%nat <-> t - one_second <= lob_time row <= t + T.
Proof.
  intros Hloc Hev Ht Hsorted Hrow. split.
  - intro Hi.
    apply (locator_window_times df_h df_o irow T s e ev t i row); assumption.
  - intro Hwin.
    destruct (locator_answer df_h df_o irow T s e Hloc)
      as (ev' & t' & Hev' & Ht' & _ & Hs & He).
    rewrite Hev in Hev'. inversion Hev'; subst ev'.
    rewrite Ht in Ht'. inversion Ht'; subst t'.
    set (times := map lob_time (lob_rows df_o)) in *.
    assert (Hlen : (i < List.length times)%nat).
    { unfold times. rewrite length_map. apply nth_error_Some. congruence. }
    assert (Hnth : nth i times 0 = lob_time row).
    { apply nth_error_nth. unfold times. rewrite nth_error_map, Hrow. reflexivity. }
    destruct (searchsorted_spec times (t - one_second) side_left Hsorted)
      as (_ & Hs2 & _).
    destruct (searchsorted_spec times (t + T) side_right Hsorted)
      as (_ & _ & He3).
    rewrite <- Hs in Hs2. rewrite <- He in He3.
    split.
    + destruct (Nat.le_gt_cases s i) as [Hle | Hgt]; [exact Hle | exfalso].
      specialize (Hs2 i Hgt). simpl in Hs2. rewrite Hnth in Hs2.
      apply Z.ltb_lt in Hs2. lia.
    + destruct (Nat.le_gt_cases e i) as [Hle | Hgt]; [exfalso | exact Hgt].
      specialize (He3 i Hle Hlen). simpl in He3. rewrite Hnth in He3.
      apply Z.leb_gt in He3. lia.
Qed.

(** X15.  On the frame that comes out of the preparation of a raw frame
    with the column ['Date-Time'], when it has rows and none of its
    times is [NaT], and for a row with a defined time whose window is
    representable, the locator does not raise and answers a range that
    holds exactly the snapshots whose time lies between one second
    before the fill and the threshold after it: the sortedness and the
    column that the locator relies on are established by the
    preparation. *)
Theorem locator_on_prepared_frame
        (df_h : HedgeFrame) (raw : RawLobFrame) (specific_ric : string)
        (prepared : LobFrame) (irow : nat) (T : Z) (ev : HedgeEvent) (t : Z) :
  nth_error (hedge_rows df_h) irow = Some ev ->
  hedge_time ev = Some t ->
  window_in_range t T = true ->
  in_raw_lob_columns "Date-Time" raw = true ->
  lob_frame_of (fst (filter_and_prepare_lob_data raw specific_ric)) = Some prepared ->
  lob_rows prepared <> [] ->
  find_closest_lob_indexes_raises df_h prepared irow T = false /\
  exists s e : nat,
    fst (find_closest_lob_indexes df_h prepared irow T)
    = (Z.of_nat s, Z.of_nat e) /\
    forall i row,
      nth_error (lob_rows prepared) i = Some row ->
      ((s <= i < e)%nat <-> t - one_second <= lob_time row <= t + T).
Proof.
  intros Hev Ht Hrange Hcol Hframe Hne.
  destruct (prepared_frame_facts raw specific_ric prepared Hcol Hframe)
    as (Hsorted & Hlob & _).
  split.
  { unfold find_closest_lob_indexes_raises. rewrite Hev, Ht.
    apply window_in_range_no_raise. exact Hrange. }
  destruct (locator_result_shape df_h prepared T irow) as [Herr | (s & e & Hloc)].
  - exfalso. unfold find_closest_lob_indexes in Herr. rewrite Hev, Ht in Herr.
    rewrite (searchable_frame prepared Hne (Hlob Hne)) in Herr.
    cbv zeta in Herr. cbn [fst] in Herr. injection Herr as H1 H2. lia.
  - exists s, e. split; [exact Hloc |]. intros i row Hrow.
    apply (locator_range_iff df_h prepared irow T s e ev t i row); auto.
Qed.

(** X16.  When the engine runs on the frame that comes out of the
    preparation of a raw frame with the column ['Date-Time'], none of
    whose times is [NaT], every record it returns copies a snapshot of
    the raw frame whose time lies between one second before the time of
    the fill and the threshold after it, and which carries the requested
    RIC when one is requested and the raw frame has the RIC column. *)
Theorem records_on_prepared_frame
        (df_h : HedgeFrame) (raw : RawLobFrame) (specific_ric : string)
        (prepared : LobFrame) (T : Z) (tick : Q) (rec : MatchRecord) :
  in_raw_lob_columns "Date-Time" raw = true ->
  lob_frame_of (fst (filter_and_prepare_lob_data raw specific_ric)) = Some prepared ->
  In rec (fst (match_hedges_to_lob df_h prepared T tick)) ->
  (exists r,
      In r (raw_lob_rows raw) /\
      timed_row r = Some (matched_lob_row rec) /\
      (truthy specific_ric = true ->
       in_raw_lob_columns "Alias Underlying RIC" raw = true ->
       raw_lob_ric r = specific_ric)) /\
  exists t, matched_hedge_time rec = Some t /\
            t - one_second <= lob_time (matched_lob_row rec) <= t + T.
Proof.
  intros Hcol Hframe Hin.
  destruct (prepared_frame_facts raw specific_ric prepared Hcol Hframe)
    as (Hsorted & _ & Hrows).
  destruct (output_origin df_h prepared T tick rec Hin)
    as (irow & ev & s & e & psfx & ssfx & sign & fill & price & Hpre & Hfind).
  destruct (find_match_shape df_h prepared tick ev psfx ssfx sign price fill s e
                             rec Hfind)
    as (n & k & row & Hn & [Hk Hrow] & Heq & _).
  destruct Hpre as (Hev & _ & Hloc & _).
  destruct (locator_answer df_h prepared irow T s e Hloc)
    as (ev' & t & Hev' & Ht & _).
  rewrite Hev in Hev'. inversion Hev'; subst ev'.
  assert (Hmem : In row (lob_rows prepared)) by (apply (nth_error_In _ _ Hrow)).
  destruct (Hrows row Hmem) as (r & Hsel & Hr).
  apply selected_rows_In in Hsel.
  rewrite Heq. simpl. split.
  - exists r. split; [apply Hsel |]. split; [exact Hr | apply Hsel].
  - exists t. split; [exact Ht |].
    apply (locator_window_times df_h prepared irow T s e ev t (s + k)%nat row);
      auto.
    lia.
Qed.

End PreparedFrames.

Lemma prepared_rows_membership_witness :
  (In (Sample.raw_ask_row 9500 "FFIH4" (100#1) 6 (201#2) 4)
      (raw_lob_rows (fst (filter_and_prepare_lob_data Sample.raw_book "FFIH4"))) ->
   In (Sample.raw_ask_row 9500 "FFIH4" (100#1) 6 (201#2) 4)
      (raw_lob_rows Sample.raw_book) /\
   (truthy "FFIH4" = true ->
    in_raw_lob_columns "Alias Underlying RIC" Sample.raw_book = true ->
    raw_lob_ric (Sample.raw_ask_row 9500 "FFIH4" (100#1) 6 (201#2) 4) = "FFIH4")) /\
  (times_defined (selected_rows Sample.raw_book "FFIH4") = true ->
   In (Sample.raw_ask_row 9500 "FFIH4" (100#1) 6 (201#2) 4)
      (raw_lob_rows Sample.raw_book) ->
   (truthy "FFIH4" = true ->
    in_raw_lob_columns "Alias Underlying RIC" Sample.raw_book = true ->
    raw_lob_ric (Sample.raw_ask_row 9500 "FFIH4" (100#1) 6 (201#2) 4) = "FFIH4") ->
   In (Sample.raw_ask_row 9500 "FFIH4" (100#1) 6 (201#2) 4)
      (raw_lob_rows (fst (filter_and_prepare_lob_data Sample.raw_book "FFIH4")))).
Proof.
  apply (prepared_rows_membership Sample.raw_book "FFIH4").
  reflexivity.
Defined.

Lemma locator_on_prepared_frame_witness :
  find_closest_lob_indexes_raises (Sample.fills [Sample.exact_fill])
                                  Sample.prepared_book 0 Sample.two_seconds
  = false /\
  exists s e : nat,
    fst (find_closest_lob_indexes
           (Sample.fills [Sample.exact_fill]) Sample.prepared_book 0
           Sample.two_seconds)
    = (Z.of_nat s, Z.of_nat e) /\
    forall i row,
      nth_error (lob_rows Sample.prepared_book) i = Some row ->
      ((s <= i < e)%nat <->
       (Sample.ms 10000 - one_second <= lob_time row
        <= Sample.ms 10000 + Sample.two_seconds)%Z).
Proof.
  apply (locator_on_prepared_frame
           (Sample.fills [Sample.exact_fill]) Sample.raw_book "FFIH4"
           Sample.prepared_book 0
           Sample.two_seconds Sample.exact_fill (Sample.ms 10000)).
  - reflexivity.
  - reflexivity.
  - reflexivity.
  - reflexivity.
  - reflexivity.
  - discriminate.
Defined.

Lemma records_on_prepared_frame_witness :
  (exists r,
      In r (raw_lob_rows Sample.raw_book) /\
      timed_row r = Some (matched_lob_row Sample.prepared_record) /\
      (truthy "FFIH4" = true ->
       in_raw_lob_columns "Alias Underlying RIC" Sample.raw_book = true ->
       raw_lob_ric r = "FFIH4")) /\
  exists t, matched_hedge_time Sample.prepared_record = Some t /\
            (t - one_second <= lob_time (matched_lob_row Sample.prepared_record)
             <= t + Sample.two_seconds)%Z.
Proof.
  apply (records_on_prepared_frame
           (Sample.fills [Sample.exact_fill]) Sample.raw_book "FFIH4"
           Sample.prepared_book
           Sample.two_seconds Sample.half_tick Sample.prepared_record).
  - reflexivity.
  - reflexivity.
  - left. reflexivity.
Defined.

(* ================================================================== *)
(** * Properties of the cumulative volumes *)

Section LabelFacts.

Lemma string_length_app (x s : string) :
  String.length (x ++ s) = String.length x + String.length s.
Proof. induction x as [| c x IH]; simpl; [reflexivity | rewrite IH; reflexivity]. Qed.

(** Two strings with suffixes of one length are equal only if their
    parts are. *)
Lemma append_same_length_inj (x y s1 s2 : string) :
  String.length s1 = String.length s2 ->
  (x ++ s1 = y ++ s2)%string -> x = y /\ s1 = s2.
Proof.
  revert y. induction x as [| c x IH]; intros [| c' y] Hlen Heq; simpl in Heq.
  - auto.
  - exfalso. rewrite Heq in Hlen. simpl in Hlen.
    rewrite string_length_app in Hlen. lia.
  - exfalso. rewrite <- Heq in Hlen. simpl in Hlen.
    rewrite string_length_app in Hlen. lia.
  - injection Heq as Hc Hrest. destruct (IH y Hlen Hrest) as [-> ->].
    subst. auto.
Qed.

Lemma str_of_nat_inj (i j : nat) : str_of_nat i = str_of_nat j -> i = j.
Proof.
  unfold str_of_nat. intro H.
  assert (Hu : Nat.to_uint i = Nat.to_uint j).
  { apply (f_equal NilEmpty.uint_of_string) in H.
    rewrite !NilEmpty.usu in H. congruence. }
  apply (f_equal Nat.of_uint) in Hu. rewrite !Unsigned.of_to in Hu. exact Hu.
Qed.

(** The label of a level determines the level and the suffix, among
    suffixes of one length. *)
Lemma level_col_inj (i j : nat) (s1 s2 : string) :
  String.length s1 = String.length s2 ->
  level_col i s1 = level_col j s2 -> i = j /\ s1 = s2.
Proof.
  unfold level_col. intros Hlen Heq. simpl in Heq. injection Heq as Heq.
  destruct (append_same_length_inj _ _ _ _ Hlen Heq) as [Hn Hs].
  split; [apply str_of_nat_inj; exact Hn | exact Hs].
Qed.

Lemma level_col_eqb (i j : nat) (s1 s2 : string) :
  String.length s1 = String.length s2 ->
  String.eqb (level_col i s1) (level_col j s2)
  = (i =? j)%nat && String.eqb s1 s2.
Proof.
  intro Hlen.
  destruct (String.eqb_spec (level_col i s1) (level_col j s2)) as [Heq | Hne].
  - destruct (level_col_inj i j s1 s2 Hlen Heq) as [-> ->].
    rewrite Nat.eqb_refl, String.eqb_refl. reflexivity.
  - destruct (Nat.eqb_spec i j) as [-> | Hij]; [| reflexivity].
    destruct (String.eqb_spec s1 s2) as [-> | Hs]; [| reflexivity].
    contradiction.
Qed.

End LabelFacts.

Section DictFacts.

Lemma dict_get_app k (d1 d2 : VolumeFrame) :
  dict_get k (d1 ++ d2)
  = match dict_get k d1 with Some v => Some v | None => dict_get k d2 end.
Proof.
  induction d1 as [| [k' v'] d1 IH]; simpl; [reflexivity |].
  destruct (String.eqb k k'); [reflexivity | exact IH].
Qed.

(** Setting a key that is not in the dictionary appends it. *)
Lemma dict_set_new k v (d : VolumeFrame) :
  dict_get k d = None -> dict_set k v d = d ++ [(k, v)].
Proof.
  induction d as [| [k' v'] d IH]; simpl; [reflexivity |].
  destruct (String.eqb k k'); [discriminate |].
  intro H. rewrite (IH H). reflexivity.
Qed.

End DictFacts.

Section VolumeFacts.

Variable df : LobFrame.

Lemma volume_columns_S k :
  volume_columns df (S k)
  = volume_columns df k
    ++ [(level_col (S k) "-AskVolume", volume_series df "-AskSize" (S k));
        (level_col (S k) "-BidVolume", volume_series df "-BidSize" (S k))].
Proof.
  unfold volume_columns. rewrite seq_S, flat_map_app. reflexivity.
Qed.

Lemma volume_columns_get_ask k j :
  dict_get (level_col j "-AskVolume") (volume_columns df k)
  = if (1 <=? j)%nat && (j <=? k)%nat
    then Some (volume_series df "-AskSize" j) else None.
Proof.
  induction k as [| k IH].
  - destruct j; reflexivity.
  - rewrite volume_columns_S, dict_get_app, IH.
    destruct ((1 <=? j)%nat && (j <=? k)%nat) eqn:E.
    + apply andb_true_iff in E. destruct E as [E1 E2].
      apply Nat.leb_le in E2. rewrite E1. simpl.
      destruct (Nat.leb_spec j (S k)); [reflexivity | lia].
    + cbn [dict_get]. rewrite !level_col_eqb by reflexivity.
      cbv [String.eqb Ascii.eqb Bool.eqb]. rewrite ?andb_true_r, ?andb_false_r.
      destruct (Nat.eqb_spec j (S k)) as [-> | Hne].
      * rewrite Nat.leb_refl. reflexivity.
      * destruct ((1 <=? j)%nat) eqn:E1; [| reflexivity].
        cbn [andb] in E |- *. apply Nat.leb_gt in E.
        destruct (Nat.leb_spec j (S k)); [lia | reflexivity].
Qed.

Lemma volume_columns_get_bid k j :
  dict_get (level_col j "-BidVolume") (volume_columns df k)
  = if (1 <=? j)%nat && (j <=? k)%nat
    then Some (volume_series df "-BidSize" j) else None.
Proof.
  induction k as [| k IH].
  - destruct j; reflexivity.
  - rewrite volume_columns_S, dict_get_app, IH.
    destruct ((1 <=? j)%nat && (j <=? k)%nat) eqn:E.
    + apply andb_true_iff in E. destruct E as [E1 E2].
      apply Nat.leb_le in E2. rewrite E1. simpl.
      destruct (Nat.leb_spec j (S k)); [reflexivity | lia].
    + cbn [dict_get]. rewrite !level_col_eqb by reflexivity.
      cbv [String.eqb Ascii.eqb Bool.eqb]. rewrite ?andb_true_r, ?andb_false_r.
      destruct (Nat.eqb_spec j (S k)) as [-> | Hne].
      * rewrite Nat.leb_refl. reflexivity.
      * destruct ((1 <=? j)%nat) eqn:E1; [| reflexivity].
        cbn [andb] in E |- *. apply Nat.leb_gt in E.
        destruct (Nat.leb_spec j (S k)); [lia | reflexivity].
Qed.

(** One iteration of the loop on a level whose size columns are there
    turns the columns of the levels before it into those up to it. *)
Lemma cumulative_step a more :
  (1 <= a)%nat ->
  sizes_present df a = true ->
  cumulative_loop df (a :: more) (volume_columns df (a - 1))
  = cumulative_loop df more (volume_columns df a).
Proof.
  intros Ha Hp. unfold sizes_present in Hp. apply andb_true_iff in Hp.
  destruct Hp as [Hpa Hpb].
  cbn [cumulative_loop]. rewrite Hpa, Hpb. cbn [negb orb].
  destruct a as [| [| a']]; [lia | |].
  - (* level 1 *)
    cbn [Nat.eqb Nat.sub volume_columns seq flat_map dict_set].
    rewrite level_col_eqb by reflexivity. reflexivity.
  - (* a later level *)
    replace (S (S a') =? 1)%nat with false by reflexivity.
    replace (S (S a') - 1)%nat with (S a') by lia.
    rewrite volume_columns_get_ask, volume_columns_get_bid.
    replace (((1 <=? S a') && (S a' <=? S a'))%nat) with true
      by (rewrite Nat.leb_refl; reflexivity).
    assert (Hnew_a : dict_get (level_col (S (S a')) "-AskVolume")
                              (volume_columns df (S a')) = None).
    { rewrite volume_columns_get_ask.
      destruct (Nat.leb_spec (S (S a')) (S a')); [lia |].
      rewrite andb_false_r. reflexivity. }
    rewrite (dict_set_new _ _ _ Hnew_a).
    rewrite dict_get_app, volume_columns_get_bid.
    replace (((1 <=? S a') && (S a' <=? S a'))%nat) with true
      by (rewrite Nat.leb_refl; reflexivity).
    assert (Hnew_b : dict_get (level_col (S (S a')) "-BidVolume")
                              (volume_columns df (S a')
                               ++ [(level_col (S (S a')) "-AskVolume",
                                    series_add
                                      (column_fillna0 df (level_col (S (S a')) "-AskSize"))
                                      (volume_series df "-AskSize" (S a')))])
                     = None).
    { rewrite dict_get_app, volume_columns_get_bid.
      destruct (Nat.leb_spec (S (S a')) (S a')); [lia |].
      rewrite andb_false_r. cbn [dict_get].
      rewrite level_col_eqb by reflexivity.
      cbv [String.eqb Ascii.eqb Bool.eqb]. rewrite andb_false_r. reflexivity. }
    rewrite (dict_set_new _ _ _ Hnew_b).
    rewrite (volume_columns_S (S a')), <- app_assoc. reflexivity.
Qed.

(** The loop on the levels [a, a+1, ...] stops at the first level whose
    size columns are missing. *)
Lemma cumulative_loop_closed :
  forall len a,
    (1 <= a)%nat ->
    fst (cumulative_loop df (seq a len) (volume_columns df (a - 1)))
    = volume_columns df (a - 1 + leading_levels df a len).
Proof.
  induction len as [| len IH]; intros a Ha.
  - simpl. rewrite Nat.add_0_r. reflexivity.
  - cbn [seq leading_levels].
    destruct (sizes_present df a) eqn:Hp.
    + rewrite (cumulative_step a (seq (S a) len) Ha Hp).
      replace (volume_columns df a) with (volume_columns df (S a - 1))
        by (f_equal; lia).
      rewrite (IH (S a) ltac:(lia)). f_equal. lia.
    + cbn [cumulative_loop]. unfold sizes_present in Hp.
      apply andb_false_iff in Hp.
      replace (negb (in_columns (level_col a "-AskSize") df)
               || negb (in_columns (level_col a "-BidSize") df)) with true.
      * simpl. rewrite Nat.add_0_r. reflexivity.
      * destruct Hp as [-> | ->]; simpl; [reflexivity |].
        rewrite orb_true_r. reflexivity.
Qed.

(** The frame returned by [cumulative_sum_by_key], in closed form. *)
Lemma cumulative_sum_closed (lob_state_depth : Z) :
  fst (cumulative_sum_by_key df lob_state_depth)
  = if lob_empty df then []
    else volume_columns df (leading_levels df 1 (Z.to_nat lob_state_depth)).
Proof.
  unfold cumulative_sum_by_key.
  destruct (lob_empty df); [reflexivity |].
  destruct (Z.leb_spec lob_state_depth 0) as [Hle | Hgt].
  - replace (Z.to_nat lob_state_depth) with 0%nat by lia. reflexivity.
  - destruct (negb (in_columns "L1-AskSize" df)
              || negb (in_columns "L1-BidSize" df)) eqn:E.
    + destruct (Z.to_nat lob_state_depth) as [| n]; [reflexivity |].
      cbn [leading_levels]. unfold sizes_present.
      change (level_col 1 "-AskSize") with "L1-AskSize".
      change (level_col 1 "-BidSize") with "L1-BidSize".
      apply orb_true_iff in E. rewrite !negb_true_iff in E.
      destruct E as [-> | ->]; [reflexivity | rewrite andb_false_r; reflexivity].
    + apply (cumulative_loop_closed (Z.to_nat lob_state_depth) 1 (Nat.le_refl 1)).
Qed.

End VolumeFacts.

Section VolumeClaims.

Lemma volume_columns_labels df k :
  map fst (volume_columns df k) = volume_labels k.
Proof.
  unfold volume_columns, volume_labels.
  induction (seq 1 k) as [| j l IH]; simpl; [reflexivity |].
  rewrite IH. reflexivity.
Qed.

Lemma series_add_length a b :
  List.length a = List.length b ->
  List.length (series_add a b) = List.length a.
Proof.
  intro H. unfold series_add. rewrite length_map, length_combine. lia.
Qed.

Lemma volume_series_length df side_size i :
  (1 <= i)%nat ->
  List.length (volume_series df side_size i) = List.length (lob_rows df).
Proof.
  induction i as [| [| i'] IH]; intro Hi.
  - lia.
  - simpl. unfold column_fillna0. apply length_map.
  - change (volume_series df side_size (S (S i')))
      with (series_add (column_fillna0 df (level_col (S (S i')) side_size))
                       (volume_series df side_size (S i'))).
    rewrite series_add_length; unfold column_fillna0; rewrite length_map;
      [reflexivity |].
    symmetry. apply IH. lia.
Qed.

(** Every value of the series of level [i] is the sum of the sizes of
    the levels up to [i], missing sizes counting for 0. *)
Lemma volume_series_sum df side_size i :
  (1 <= i)%nat ->
  Forall2 (fun r v => (v == size_sum side_size r i)%Q)
          (lob_rows df) (volume_series df side_size i).
Proof.
  induction i as [| [| i'] IH]; intro Hi.
  - lia.
  - clear IH. cbn [volume_series]. unfold column_fillna0.
    induction (lob_rows df) as [| r rows IHr]; cbn [map]; constructor.
    + cbn [size_sum]. symmetry. apply Qplus_0_l.
    + exact IHr.
  - change (volume_series df side_size (S (S i')))
      with (series_add (column_fillna0 df (level_col (S (S i')) side_size))
                       (volume_series df side_size (S i'))).
    specialize (IH ltac:(lia)). unfold column_fillna0, series_add.
    induction IH as [| r v rows vs Hv Hrest IHf]; cbn [map combine];
      constructor.
    + cbn [fst snd]. rewrite Hv.
      change (size_sum side_size r (S (S i')))
        with (size_sum side_size r (S i')
              + fillna0 (lob_cell r (level_col (S (S i')) side_size)))%Q.
      apply Qplus_comm.
    + exact IHf.
Qed.

(** X17.  The frame returned by [cumulative_sum_by_key] has an ask and
    a bid volume column for each of the first consecutive levels whose
    two size columns are in the input frame, up to the requested depth,
    in level order, and none for any level after the first gap; it has
    no column at all when the input frame is empty, the depth is not
    positive or a size column of level 1 is missing.  Every column has
    one value per row of the input. *)
Theorem cumulative_volume_columns (df : LobFrame) (lob_state_depth : Z) :
  map fst (fst (cumulative_sum_by_key df lob_state_depth))
  = (if lob_empty df then []
     else volume_labels (leading_levels df 1 (Z.to_nat lob_state_depth))) /\
  Forall (fun column => List.length (snd column) = List.length (lob_rows df))
         (fst (cumulative_sum_by_key df lob_state_depth)).
Proof.
  rewrite cumulative_sum_closed. destruct (lob_empty df).
  - split; [reflexivity | constructor].
  - split; [apply volume_columns_labels |].
    unfold volume_columns. apply Forall_forall. intros [label series] Hin.
    apply in_flat_map in Hin. destruct Hin as (j & Hj & Hin).
    apply in_seq in Hj. simpl in Hin.
    destruct Hin as [H | [H | []]]; inversion H; subst; simpl;
      apply volume_series_length; lia.
Qed.

(** An integer below [2^53] in magnitude is computed exactly. *)
Lemma exact_integer (q : Q) :
  Qden (Qred q) = 1%positive ->
  (Z.abs (Qnum (Qred q)) < 2 ^ 53)%Z ->
  exact_result q.
Proof.
  intros Hden Hnum.
  assert (Hq : (q == inject_Z (Qnum (Qred q)))%Q).
  { rewrite <- (Qred_correct q) at 1.
    destruct (Qred q) as [n d]. simpl in *. subst d. reflexivity. }
  change (2 ^ 53)%Z with 9007199254740992%Z in Hnum.
  split.
  - exists (Qnum (Qred q)), 0%Z.
    split; [exact Hnum |]. split; [lia |].
    rewrite Hq at 1. simpl. rewrite Qmult_1_r. reflexivity.
  - rewrite Hq. split; rewrite <- Zle_Qle; lia.
Qed.

(** X18.  For a non-empty frame and a level [i] among the leading
    levels whose size columns are present, when the cumulative sizes up
    to level [i] are computed exactly in every row (no float rounding,
    no integer wrap-around): the ask (bid) volume column of level [i]
    holds, for each row, the sum of the ask (bid) sizes of that row over
    the levels 1 to [i], a missing size counting for 0. *)
Theorem cumulative_volume_is_prefix_sum
        (df : LobFrame) (lob_state_depth : Z) (i : nat) :
  lob_empty df = false ->
  (1 <= i <= leading_levels df 1 (Z.to_nat lob_state_depth))%nat ->
  exact_size_sums df i ->
  exists ask_volume bid_volume,
    dict_get (level_col i "-AskVolume")
             (fst (cumulative_sum_by_key df lob_state_depth)) = Some ask_volume /\
    dict_get (level_col i "-BidVolume")
             (fst (cumulative_sum_by_key df lob_state_depth)) = Some bid_volume /\
    Forall2 (fun r v => (v == size_sum "-AskSize" r i)%Q)
            (lob_rows df) ask_volume /\
    Forall2 (fun r v => (v == size_sum "-BidSize" r i)%Q)
            (lob_rows df) bid_volume.
Proof.
  intros Hne Hi _. rewrite cumulative_sum_closed, Hne.
  exists (volume_series df "-AskSize" i), (volume_series df "-BidSize" i).
  rewrite volume_columns_get_ask, volume_columns_get_bid.
  replace ((1 <=? i)%nat && (i <=? leading_levels df 1 (Z.to_nat lob_state_depth))%nat)
    with true.
  - repeat split; try reflexivity; apply volume_series_sum; lia.
  - symmetry. apply andb_true_iff. split; apply Nat.leb_le; lia.
Qed.


End VolumeClaims.

(** The sizes of the sample frame are small integers. *)
Lemma depth_book_exact_sums : exact_size_sums Sample.depth_book 2.
Proof.
  intros r j Hin Hj.
  assert (Hcases : j = 1%nat \/ j = 2%nat) by lia.
  destruct Hin as [<- | [<- | []]]; destruct Hcases as [-> | ->];
    split; apply exact_integer; vm_compute; reflexivity.
Qed.

Lemma cumulative_volume_is_prefix_sum_witness :
  exists ask_volume bid_volume,
    dict_get (level_col 2 "-AskVolume")
             (fst (cumulative_sum_by_key Sample.depth_book 10)) = Some ask_volume /\
    dict_get (level_col 2 "-BidVolume")
             (fst (cumulative_sum_by_key Sample.depth_book 10)) = Some bid_volume /\
    Forall2 (fun r v => (v == size_sum "-AskSize" r 2)%Q)
            (lob_rows Sample.depth_book) ask_volume /\
    Forall2 (fun r v => (v == size_sum "-BidSize" r 2)%Q)
            (lob_rows Sample.depth_book) bid_volume.
Proof.
  apply (cumulative_volume_is_prefix_sum Sample.depth_book 10 2).
  - reflexivity.
  - vm_compute. split; repeat constructor.
  - exact depth_book_exact_sums.
Defined.


(** On the sample frame the loop stops at the gap at level 3: the
    columns of level 4 are not summed. *)
Example cumulative_volume_sample :
  fst (cumulative_sum_by_key Sample.depth_book 10)
  = [("L1-AskVolume", [3%Q; 1%Q]); ("L1-BidVolume", [2%Q; 6%Q]);
     ("L2-AskVolume", [(4 + 3)%Q; (0 + 1)%Q]);
     ("L2-BidVolume", [(5 + 2)%Q; (2 + 6)%Q])].
Proof. reflexivity. Qed.

(* ================================================================== *)
(** * Properties of the hedge preparation *)

Section HedgePrepFacts.

(** With a [TRANSACTTIME] column, the rows of the prepared frame are the
    filtered, de-duplicated rows, sorted. *)
Lemma prepare_hedge_rows (df_h : RawHedgeFrame) (specific_ric : string) :
  in_raw_columns "TRANSACTTIME" (raw_columns df_h) = true ->
  raw_rows (filter_and_prepare_hedge_data df_h specific_ric)
  = sort_values_by (in_raw_columns "CUMQTY" (kept_hedge_columns df_h))
                   (deduplicated_hedge_rows df_h specific_ric).
Proof.
  intro Htime.
  unfold filter_and_prepare_hedge_data, deduplicated_hedge_rows,
    filtered_hedge_rows, duplicate_subset, kept_hedge_columns.
  rewrite Htime. cbn [negb].
  set (cols := filter (fun c => in_raw_columns c (raw_columns df_h)) relevant_cols).
  destruct (raw_rows df_h) as [| r0 rest0] eqn:Hrows.
  - rewrite Hrows.
    destruct (truthy specific_ric && in_raw_columns "RIC" cols);
      destruct (in_raw_columns "ORDERQTY" cols && in_raw_columns "EXECTYPE" cols);
      destruct (in_raw_columns "CUMQTY" cols && in_raw_columns "LEAVESQTY" cols);
      destruct (filter (fun c => in_raw_columns c cols) duplicate_cols);
      reflexivity.
  - destruct (if truthy specific_ric && in_raw_columns "RIC" cols
              then filter (fun r => str_is (raw_cell r "RIC") specific_ric)
                          (r0 :: rest0)
              else r0 :: rest0) as [| r1 rest1] eqn:Hsel.
    + destruct (truthy specific_ric && in_raw_columns "RIC" cols);
        destruct (in_raw_columns "ORDERQTY" cols && in_raw_columns "EXECTYPE" cols);
        destruct (in_raw_columns "CUMQTY" cols && in_raw_columns "LEAVESQTY" cols);
        destruct (filter (fun c => in_raw_columns c cols) duplicate_cols);
        reflexivity.
    + cbn [raw_rows]. reflexivity.
Qed.

Lemma insert_by_key_perm b r rows :
  Permutation (r :: rows) (insert_by_key b r rows).
Proof.
  induction rows as [| x rest IH]; simpl.
  - apply Permutation_refl.
  - destruct (key_leb b r x).
    + apply Permutation_refl.
    + apply perm_trans with (x :: r :: rest);
        [apply perm_swap | apply perm_skip; exact IH].
Qed.

Lemma sort_values_by_perm b rows : Permutation rows (sort_values_by b rows).
Proof.
  induction rows as [| r rest IH]; simpl.
  - apply perm_nil.
  - apply perm_trans with (r :: sort_values_by b rest);
      [apply perm_skip; exact IH | apply insert_by_key_perm].
Qed.







End HedgePrepFacts.

Section HedgePrepMore.

Lemma str_is_true c s : str_is c s = true <-> c = CStr s.
Proof.
  destruct c as [q | t |]; simpl; split; try discriminate.
  - intro H. apply String.eqb_eq in H. congruence.
  - intro H. inversion H. apply String.eqb_refl.
Qed.

(** The rows that go through the three filters. *)
Lemma filtered_hedge_rows_In df_h specific_ric r :
  In r (filtered_hedge_rows df_h specific_ric) <->
  In r (raw_rows df_h) /\ survives_filters df_h specific_ric r.
Proof.
  unfold filtered_hedge_rows, survives_filters.
  set (cols := kept_hedge_columns df_h).
  destruct (in_raw_columns "CUMQTY" cols && in_raw_columns "LEAVESQTY" cols) eqn:E3;
    destruct (in_raw_columns "ORDERQTY" cols && in_raw_columns "EXECTYPE" cols) eqn:E2;
    destruct (truthy specific_ric && in_raw_columns "RIC" cols) eqn:E1;
    rewrite ?filter_In, ?negb_true_iff, ?str_is_true;
    rewrite ?andb_true_iff, ?andb_false_iff in *;
    intuition congruence.
Qed.


Lemma cell_eqb_refl c : cell_eqb c c = true.
Proof.
  destruct c as [q | s |]; simpl; [| apply String.eqb_refl | reflexivity].
  apply Qeq_bool_iff. reflexivity.
Qed.


Lemma same_on_refl subset r : same_on subset r r = true.
Proof.
  unfold same_on. apply forallb_forall. intros c _. apply cell_eqb_refl.
Qed.


(** Every row given to the de-duplication agrees with a row that was
    seen before or with one that is kept. *)
Lemma drop_duplicates_from_represented subset :
  forall rows seen r,
    In r rows ->
    exists r', (In r' seen \/ In r' (drop_duplicates_from subset seen rows)) /\
               same_on subset r r' = true.
Proof.
  induction rows as [| x rest IH]; intros seen r Hin; [destruct Hin |].
  simpl. destruct (existsb (same_on subset x) seen) eqn:E.
  - destruct Hin as [-> | Hin].
    + apply existsb_exists in E. destruct E as (s & Hs & Hsame).
      exists s. auto.
    + apply (IH seen r Hin).
  - destruct Hin as [-> | Hin].
    + exists r. split; [right; left; reflexivity | apply same_on_refl].
    + destruct (IH (x :: seen) r Hin) as (r' & [[<- | Hs] | Hd] & Hsame).
      * exists x. split; [right; left; reflexivity | exact Hsame].
      * exists r'. auto.
      * exists r'. split; [right; right; exact Hd | exact Hsame].
Qed.



End HedgePrepMore.

Section HedgePrepClaims.


(** X21.  Every row of the raw frame that passes the filters is
    represented in the prepared frame: by itself when no column is left
    to recognise duplicates on, and otherwise by a row that agrees with
    it on all those columns. *)
Theorem surviving_hedge_rows_represented
        (df_h : RawHedgeFrame) (specific_ric : string) (r : RawHedgeRow) :
  in_raw_columns "TRANSACTTIME" (raw_columns df_h) = true ->
  In r (raw_rows df_h) ->
  survives_filters df_h specific_ric r ->
  exists r',
    In r' (raw_rows (filter_and_prepare_hedge_data df_h specific_ric)) /\
    same_on (duplicate_subset df_h) r r' = true /\
    (duplicate_subset df_h = [] -> r' = r).
Proof.
  intros Htime Hin Hsurv.
  assert (Hf : In r (filtered_hedge_rows df_h specific_ric))
    by (apply filtered_hedge_rows_In; auto).
  rewrite (prepare_hedge_rows df_h specific_ric Htime).
  unfold deduplicated_hedge_rows.
  destruct (duplicate_subset df_h) as [| c subset] eqn:Hsub.
  - exists r. split; [| split; [reflexivity | reflexivity]].
    apply (Permutation_in r (sort_values_by_perm _ _) Hf).
  - destruct (drop_duplicates_from_represented (c :: subset) _ [] r Hf)
      as (r' & [[] | Hd] & Hsame).
    exists r'. split; [| split; [exact Hsame | discriminate]].
    apply (Permutation_in r' (sort_values_by_perm _ _) Hd).
Qed.



End HedgePrepClaims.

(** On the sample frame the cancellation, the row without volume, the
    repeated partial fill and the fill of the other instrument go; the
    two partial fills are put in time order. *)
Example prepared_hedge_sample :
  raw_rows (filter_and_prepare_hedge_data HedgeSample.raw_hedge "FFIH4")
  = [HedgeSample.raw_fill 10000 "D" "FFIH4" 12 1 5 7;
     HedgeSample.raw_fill 10100 "D" "FFIH4" 12 2 12 0].
Proof. reflexivity. Qed.


Lemma surviving_hedge_rows_represented_witness :
  exists r',
    In r' (raw_rows (filter_and_prepare_hedge_data HedgeSample.raw_hedge "FFIH4")) /\
    same_on (duplicate_subset HedgeSample.raw_hedge)
            (HedgeSample.raw_fill 10050 "D" "FFIH4" 12 1 5 7) r' = true /\
    (duplicate_subset HedgeSample.raw_hedge = [] ->
     r' = HedgeSample.raw_fill 10050 "D" "FFIH4" 12 1 5 7).
Proof.
  apply (surviving_hedge_rows_represented HedgeSample.raw_hedge "FFIH4").
  - reflexivity.
  - do 4 right. left. reflexivity.
  - unfold survives_filters. repeat split; intros; reflexivity.
Defined.



Section HedgeColumns.




End HedgeColumns.


(* ================================================================== *)
(** * Properties of the derived columns *)

Section ImbalanceFacts.

Lemma imbalance_cells_of_sums k i rows ask bid :
  (i <= k)%nat ->
  Forall2 (fun r v => (v == size_sum "-AskSize" r i)%Q) rows ask ->
  Forall2 (fun r v => (v == size_sum "-BidSize" r i)%Q) rows bid ->
  Forall2 (imbalance_cell_ok k i) rows
          (map (fun p => imbalance_cell (fst p) (snd p)) (combine ask bid)).
Proof.
  intros Hi Ha. revert bid.
  induction Ha as [| r a rows ask Hra Hrest IH]; intros bid Hb;
    inversion Hb as [| r' b rows' bid' Hrb Hbrest]; subst;
    cbn [combine map]; constructor.
  - cbn [fst snd]. unfold imbalance_cell, imbalance_cell_ok.
    destruct (Qeq_bool b 0) eqn:E.
    + right. apply Qeq_bool_iff in E. rewrite <- Hrb. exact E.
    + assert (Hb0 : ~ (b == 0)%Q).
      { intro H. apply Qeq_bool_iff in H. congruence. }
      split; [exact Hi |]. split.
      * rewrite <- Hrb. exact Hb0.
      * intros _. rewrite <- Hrb, <- Hra. reflexivity.
  - apply IH. exact Hbrest.
Qed.

Lemma imbalance_cells_all_nan k i (rows : list LobRow) :
  (k < i)%nat ->
  Forall2 (imbalance_cell_ok k i) rows (repeat None (List.length rows)).
Proof.
  intro Hk. induction rows as [| r rows IH]; cbn [List.length repeat];
    constructor; [left; exact Hk | exact IH].
Qed.

Lemma leading_levels_pos df n :
  sizes_present df 1 = true -> (1 <= leading_levels df 1 (S n))%nat.
Proof.
  intro H. cbn [leading_levels]. rewrite H. lia.
Qed.

Lemma volume_columns_nonempty df k :
  (1 <= k)%nat -> volume_columns df k <> [].
Proof.
  intro Hk. destruct k as [| k]; [lia |].
  unfold volume_columns. rewrite <- cons_seq. cbn [flat_map app]. discriminate.
Qed.

End ImbalanceFacts.

(** X25.  For a non-empty frame that has both size columns of level 1,
    the volume imbalance part of [add_public_lob_features] has one
    column per level 1 to 10, in level order.  When the cumulative
    sizes up to level [i] are computed exactly in every row, a cell of
    level [i] is a number exactly when level [i] is among the leading
    levels whose size columns are present and the cumulative bid size
    of the row is not zero; that number is the cumulative ask size
    divided by the cumulative bid size when this quotient is a binary64
    value.  Every other cell is NaN. *)
Theorem volume_imbalance_cells (df : LobFrame) (i : nat) :
  lob_empty df = false ->
  sizes_present df 1 = true ->
  (1 <= i <= 10)%nat ->
  exact_size_sums df i ->
  exists series,
    nth_error (volume_imbalance_features df) (i - 1)
    = Some (level_col i "-VolumeImbalance", series) /\
    Forall2 (imbalance_cell_ok (leading_levels df 1 10) i) (lob_rows df) series.
Proof.
  intros Hne H1 Hi _. unfold volume_imbalance_features.
  rewrite cumulative_sum_closed, Hne.
  change (Z.to_nat 10) with 10%nat.
  set (k := leading_levels df 1 10).
  assert (Hk : (1 <= k)%nat) by (apply leading_levels_pos; exact H1).
  destruct (volume_columns df k) as [| col cols] eqn:Ecols.
  { exfalso. exact (volume_columns_nonempty df k Hk Ecols). }
  rewrite <- Ecols. clear Ecols col cols.
  exists (imbalance_series (List.length (lob_rows df)) (volume_columns df k) i).
  split.
  - rewrite nth_error_map, nth_error_seq.
    destruct (Nat.ltb_spec (i - 1) 10) as [_ | Hge]; [| lia].
    cbn [option_map]. replace (1 + (i - 1))%nat with i by lia. reflexivity.
  - unfold imbalance_series.
    rewrite volume_columns_get_ask, volume_columns_get_bid.
    destruct (Nat.leb_spec 1 i) as [_ | Hlt]; [| lia]. cbn [andb].
    destruct (Nat.leb_spec i k) as [Hle | Hgt].
    + apply imbalance_cells_of_sums; [exact Hle | |];
        apply volume_series_sum; lia.
    + apply imbalance_cells_all_nan. exact Hgt.
Qed.

Lemma volume_imbalance_cells_witness :
  exists series,
    nth_error (volume_imbalance_features Sample.depth_book) (2 - 1)
    = Some (level_col 2 "-VolumeImbalance", series) /\
    Forall2 (imbalance_cell_ok (leading_levels Sample.depth_book 1 10) 2)
            (lob_rows Sample.depth_book) series.
Proof.
  apply (volume_imbalance_cells Sample.depth_book 2).
  - reflexivity.
  - reflexivity.
  - lia.
  - exact depth_book_exact_sums.
Defined.

Section DifferenceFacts.









End DifferenceFacts.


